(** * The primary-columns list panel of the column tool panel

    A shallow embedding of [PrimaryColsListPanel]
    (packages/ag-grid-enterprise/.../primaryColsPanel/primaryColsListPanel.ts):
    the rebuild of the item registry from the column tree, the filter pass,
    the visibility pass, group expansion and select-all.

    The panel object is a record that is passed from call to call; the
    registry [columnComps] (a JS object used as a dictionary) is a
    [gmap string ColumnItem]; DOM output, dispatched events, console
    warnings and calls on the column API are appended to a trace.

    Identifiers are taken not to collide with the members every JS object
    inherits from [Object.prototype].  Where the source iterates over the
    registry ([_.iterateObject]) the model follows the order of
    [map_to_list]; no property below depends on that order. *)

From Stdlib Require Import String Ascii List Bool Arith Lia ZArith Permutation.
From stdpp Require Import base option list strings gmap fin_maps.

Local Open Scope string_scope.
Local Open Scope list_scope.

Set Warnings "-register-all".

(** ** JavaScript strings (the ASCII fragment) *)
Module Js.

(** [c.toLowerCase()] for one ASCII character. *)
Definition lowerAscii (c : ascii) : ascii :=
  let n := nat_of_ascii c in
  if (65 <=? n)%nat && (n <=? 90)%nat then ascii_of_nat (n + 32) else c.

(** [s.toLowerCase()]. *)
Fixpoint toLowerCase (s : string) : string :=
  match s with
  | EmptyString => EmptyString
  | String c r => String (lowerAscii c) (toLowerCase r)
  end.

(** [s.indexOf(sub)]: the first position of [sub] in [s], or [-1]. *)
Fixpoint indexOf (s sub : string) : Z :=
  if String.prefix sub s then 0%Z
  else match s with
       | EmptyString => (-1)%Z
       | String _ r =>
           let i := indexOf r sub in
           if (i <? 0)%Z then (-1)%Z else (i + 1)%Z
       end.

(** [arr.indexOf(x)] on an array of strings. *)
Fixpoint arrayIndexOf (arr : list string) (x : string) : Z :=
  match arr with
  | [] => (-1)%Z
  | y :: r =>
      if String.eqb y x then 0%Z
      else let i := arrayIndexOf r x in
           if (i <? 0)%Z then (-1)%Z else (i + 1)%Z
  end.

(** Truthiness of a string: the empty string is falsy. *)
Definition truthy (s : string) : bool :=
  match s with EmptyString => false | _ => true end.

End Js.

(** Modelled from the spec: [_.exists] of the utility module, which is not
    part of the panel source ("empty/absent -> filtering disabled"): a value
    exists when it is neither null/undefined nor the empty string. *)
Definition exists_ (v : option string) : bool :=
  match v with
  | None => false
  | Some s => Js.truthy s
  end.

(** ** The column tree *)

Record ColDef := { colSuppressToolPanel : bool }.
Record ColGroupDef := { groupSuppressToolPanel : bool }.

(** A leaf of the tree. [colDisplayName] is the name the item shows
    (null when the column has none). *)
Record Column := {
  colId : string;
  colDef : option ColDef;
  colDisplayName : option string
}.

(** The own data of a column group: [originalParent] is the weak parent
    reference (the parent's id, [None] at the top level). *)
Record OriginalColumnGroup := {
  groupId : string;
  colGroupDef : option ColGroupDef;
  padding : bool;
  originalParent : option string;
  groupDisplayName : option string
}.

Inductive OriginalColumnGroupChild : Type :=
| ColumnNode (column : Column)
| GroupNode (columnGroup : OriginalColumnGroup)
            (children : list OriginalColumnGroupChild).

Definition getId (n : OriginalColumnGroupChild) : string :=
  match n with
  | ColumnNode c => colId c
  | GroupNode g _ => groupId g
  end.

Definition getChildren (n : OriginalColumnGroupChild)
  : list OriginalColumnGroupChild :=
  match n with
  | ColumnNode _ => []
  | GroupNode _ ch => ch
  end.

(** [item instanceof OriginalColumnGroup] *)
Definition isGroup (n : OriginalColumnGroupChild) : bool :=
  match n with ColumnNode _ => false | GroupNode _ _ => true end.

(** [column.getColDef() && column.getColDef().suppressToolPanel] *)
Definition columnSuppressed (c : Column) : bool :=
  match colDef c with
  | Some d => colSuppressToolPanel d
  | None => false
  end.

(** [columnGroup.getColGroupDef() && columnGroup.getColGroupDef().suppressToolPanel] *)
Definition groupSuppressed (g : OriginalColumnGroup) : bool :=
  match colGroupDef g with
  | Some d => groupSuppressToolPanel d
  | None => false
  end.

Definition suppressed (n : OriginalColumnGroupChild) : bool :=
  match n with
  | ColumnNode c => columnSuppressed c
  | GroupNode g _ => groupSuppressed g
  end.

Definition isPadding (n : OriginalColumnGroupChild) : bool :=
  match n with
  | ColumnNode _ => false
  | GroupNode g _ => padding g
  end.

(** [item instanceof OriginalColumnGroup && item.getOriginalParent()] *)
Definition groupWithParent (n : OriginalColumnGroupChild) : bool :=
  match n with
  | ColumnNode _ => false
  | GroupNode g _ =>
      match originalParent g with
      | Some _ => true
      | None => false
      end
  end.

(** Every node of a forest, parents before children, in source order. *)
Fixpoint subnodes (n : OriginalColumnGroupChild) : list OriginalColumnGroupChild :=
  n :: match n with
       | ColumnNode _ => []
       | GroupNode _ ch => flat_map subnodes ch
       end.

Definition allNodes (tree : list OriginalColumnGroupChild)
  : list OriginalColumnGroupChild := flat_map subnodes tree.

(** Every node of a forest together with its ancestors, nearest first. *)
Fixpoint pathsFrom (anc : list OriginalColumnGroupChild)
         (n : OriginalColumnGroupChild)
  : list (list OriginalColumnGroupChild * OriginalColumnGroupChild) :=
  (anc, n) :: match n with
              | ColumnNode _ => []
              | GroupNode _ ch => flat_map (pathsFrom (n :: anc)) ch
              end.

Definition paths (tree : list OriginalColumnGroupChild)
  : list (list OriginalColumnGroupChild * OriginalColumnGroupChild) :=
  flat_map (pathsFrom []) tree.

(** Identifiers are unique over the whole tree. *)
Definition uniqueIds (tree : list OriginalColumnGroupChild) : Prop :=
  NoDup (map getId (allNodes tree)).

(** ** Items of the registry *)

(** Modelled from the spec: the item classes [ToolPanelColumnGroupComp] and
    [ToolPanelColumnComp] are not part of the panel source.  An item exposes
    its display name, whether it is expandable, its expansion flag (groups)
    and its display flag; [itemIsGroup] and [itemDept] record the constructor
    that built it and its indentation.  What a group item does when its
    expansion flag is set is [setExpanded] of the panel section. *)
Record ColumnItem := {
  itemIsGroup : bool;
  itemDept : nat;
  getDisplayName : option string;
  isExpandable : bool;
  isExpanded : bool;
  isDisplayed : bool
}.

Definition setDisplayed (b : bool) (it : ColumnItem) : ColumnItem :=
  {| itemIsGroup := itemIsGroup it; itemDept := itemDept it;
     getDisplayName := getDisplayName it; isExpandable := isExpandable it;
     isExpanded := isExpanded it; isDisplayed := b |}.

(** [this.expanded = b] on an item. *)
Definition writeExpanded (b : bool) (it : ColumnItem) : ColumnItem :=
  {| itemIsGroup := itemIsGroup it; itemDept := itemDept it;
     getDisplayName := getDisplayName it; isExpandable := isExpandable it;
     isExpanded := b; isDisplayed := isDisplayed it |}.

Inductive SELECTED_STATE := CHECKED | UNCHECKED | INDETERMINATE.

(** What the panel does to the outside world. *)
Inductive Effect :=
| DispatchGroupExpanded (state : SELECTED_STATE)
| ConsoleWarn (unrecognisedGroupIds : list string)
| ItemSelectAllChanged (key : string) (checked : bool)
| ApiSetColumnsVisible (cols : list string) (visible : bool).

Inductive GlobalEvent := EVENT_COLUMN_MOVED | EVENT_COLUMN_EVERYTHING_CHANGED.

Inductive Handler := SyncColumnLayout | OnColumnsChanged.

Record ToolPanelColumnCompParams := {
  syncLayoutWithGrid : bool;
  contractColumnSelection : bool
}.

(** Column definitions handed to [setColumnLayout]. *)
Inductive AbstractColDef :=
| LeafDef
| GroupDef (children : list AbstractColDef).

(** The collaborators the panel reads: the column controller, the column API
    and the tool-panel column-definition service. *)
Record Beans := {
  isReady : bool;
  getPrimaryColumnTree : list OriginalColumnGroupChild;
  isPrimaryColumnGroupsPresent : bool;
  isPivotMode : bool;
  getPrimaryColumns : list string;
  createColumnTree : list AbstractColDef -> list OriginalColumnGroupChild;
  gridLayout : list AbstractColDef
}.

Record PrimaryColsListPanel := {
  allowDragging : bool;
  params : ToolPanelColumnCompParams;
  columnTree : list OriginalColumnGroupChild;
  columnComps : gmap string ColumnItem;
  filterText : option string;
  expandGroupsByDefault : bool;
  listeners : list (GlobalEvent * Handler);
  gui : list string;
  trace : list Effect
}.

Definition withComps (f : gmap string ColumnItem -> gmap string ColumnItem)
           (p : PrimaryColsListPanel) : PrimaryColsListPanel :=
  {| allowDragging := allowDragging p; params := params p;
     columnTree := columnTree p; columnComps := f (columnComps p);
     filterText := filterText p;
     expandGroupsByDefault := expandGroupsByDefault p;
     listeners := listeners p; gui := gui p; trace := trace p |}.

Definition emit (e : Effect) (p : PrimaryColsListPanel) : PrimaryColsListPanel :=
  {| allowDragging := allowDragging p; params := params p;
     columnTree := columnTree p; columnComps := columnComps p;
     filterText := filterText p;
     expandGroupsByDefault := expandGroupsByDefault p;
     listeners := listeners p; gui := gui p; trace := trace p ++ [e] |}.

(** [this.getGui().appendChild(comp.getGui()); this.columnComps[id] = comp] *)
Definition appendComp (id : string) (it : ColumnItem)
           (p : PrimaryColsListPanel) : PrimaryColsListPanel :=
  {| allowDragging := allowDragging p; params := params p;
     columnTree := columnTree p; columnComps := <[id := it]> (columnComps p);
     filterText := filterText p;
     expandGroupsByDefault := expandGroupsByDefault p;
     listeners := listeners p; gui := gui p ++ [id]; trace := trace p |}.

Section Panel.

(** Whether a group item reports itself expandable is decided by the item
    class from its group ("groups only, and only if they contain a
    displayable child"); the panel only asks the item. *)
Variable groupExpandable :
  OriginalColumnGroup -> list OriginalColumnGroupChild -> bool.

(** [new ToolPanelColumnGroupComp(columnGroup, dept,
    this.onGroupExpanded.bind(this), this.allowDragging,
    this.expandGroupsByDefault)].  The callback is the same for every group
    item, the panel's own [onGroupExpanded], so the item does not record it:
    [setExpanded] below invokes [onGroupExpanded] on the panel. *)
Definition newGroupComp (g : OriginalColumnGroup)
           (ch : list OriginalColumnGroupChild) (dept : nat)
           (expandByDefault : bool) : ColumnItem :=
  {| itemIsGroup := true; itemDept := dept;
     getDisplayName := groupDisplayName g;
     isExpandable := groupExpandable g ch;
     isExpanded := expandByDefault; isDisplayed := true |}.

(** [new ToolPanelColumnComp(column, dept, drag, groupsExist)] *)
Definition newColumnComp (c : Column) (dept : nat) : ColumnItem :=
  {| itemIsGroup := false; itemDept := dept;
     getDisplayName := colDisplayName c;
     isExpandable := false; isExpanded := false; isDisplayed := true |}.

Definition addColumnComps (c : Column) (dept : nat) (groupsExist : bool)
           (p : PrimaryColsListPanel) : PrimaryColsListPanel :=
  if columnSuppressed c then p
  else appendComp (colId c) (newColumnComp c dept) p.

(** One step of the [forEach] of [recursivelyAddComps]; the group case is
    [recursivelyAddGroupComps]. *)
Fixpoint recursivelyAddComp (child : OriginalColumnGroupChild) (dept : nat)
         (groupsExist : bool) (p : PrimaryColsListPanel)
  : PrimaryColsListPanel :=
  match child with
  | ColumnNode c => addColumnComps c dept groupsExist p
  | GroupNode g ch =>
      if groupSuppressed g then p
      else
        let '(p1, newDept) :=
          if negb (padding g)
          then (appendComp (groupId g)
                  (newGroupComp g ch dept (expandGroupsByDefault p)) p,
                dept + 1)
          else (p, dept) in
        fold_left (fun acc c => recursivelyAddComp c newDept groupsExist acc)
                  ch p1
  end.

Definition recursivelyAddComps (tree : list OriginalColumnGroupChild)
           (dept : nat) (groupsExist : bool) (p : PrimaryColsListPanel)
  : PrimaryColsListPanel :=
  fold_left (fun acc c => recursivelyAddComp c dept groupsExist acc) tree p.

(** [_.clearElement(this.getGui())], destroy every item, [columnComps = {}] *)
Definition destroyColumnComps (p : PrimaryColsListPanel)
  : PrimaryColsListPanel :=
  {| allowDragging := allowDragging p; params := params p;
     columnTree := columnTree p; columnComps := ∅;
     filterText := filterText p;
     expandGroupsByDefault := expandGroupsByDefault p;
     listeners := listeners p; gui := []; trace := trace p |}.

Definition setColumnTree (tree : list OriginalColumnGroupChild)
           (p : PrimaryColsListPanel) : PrimaryColsListPanel :=
  {| allowDragging := allowDragging p; params := params p;
     columnTree := tree; columnComps := columnComps p;
     filterText := filterText p;
     expandGroupsByDefault := expandGroupsByDefault p;
     listeners := listeners p; gui := gui p; trace := trace p |}.

(** *** The filter pass *)

(** The test of one item once its children have been checked. *)
Definition filterPassesOf (comps : gmap string ColumnItem)
           (ft : option string) (item : OriginalColumnGroupChild)
           (atLeastOneChildPassed : bool) : bool :=
  if atLeastOneChildPassed then true
  else
    match comps !! getId item, ft with
    | Some comp, Some text =>
        if Js.truthy text then
          match getDisplayName comp with
          | Some displayName =>
              (0 <=? Js.indexOf (Js.toLowerCase displayName) text)%Z
          | None => true
          end
        else groupWithParent item
    | _, _ => groupWithParent item
    end.

(** The body of the [forEach] of [recursivelyCheckFilter]: the accumulator
    is [atLeastOneThisLevelPassed] and the [filterResults] object. *)
Fixpoint checkFilterItem (comps : gmap string ColumnItem)
         (ft : option string) (item : OriginalColumnGroupChild)
         (acc : bool * gmap string bool) : bool * gmap string bool :=
  let '(atLeastOneThisLevelPassed, filterResults) := acc in
  let '(atLeastOneChildPassed, filterResults1) :=
    match item with
    | GroupNode _ groupChildren =>
        fold_left (fun a c => checkFilterItem comps ft c a)
                  groupChildren (false, filterResults)
    | ColumnNode _ => (false, filterResults)
    end in
  let filterPasses := filterPassesOf comps ft item atLeastOneChildPassed in
  (if filterPasses then true else atLeastOneThisLevelPassed,
   <[getId item := filterPasses]> filterResults1).

Definition recursivelyCheckFilter (comps : gmap string ColumnItem)
           (ft : option string) (items : list OriginalColumnGroupChild)
           (filterResults : gmap string bool) : bool * gmap string bool :=
  fold_left (fun a c => checkFilterItem comps ft c a) items
            (false, filterResults).

Definition createFilterResults (p : PrimaryColsListPanel)
  : gmap string bool :=
  snd (recursivelyCheckFilter (columnComps p) (filterText p)
                              (columnTree p) ∅).

(** *** The visibility pass *)

(** [filterResults ? filterResults[id] : true]; a missing entry is
    undefined, which is falsy. *)
Definition passesFilterAt (filterResults : option (gmap string bool))
           (id : string) : bool :=
  match filterResults with
  | Some fr => default false (fr !! id)
  | None => true
  end.

(** The body of the [forEach] of [recursivelySetVisibility]. *)
Fixpoint setVisibilityOf (filterResults : option (gmap string bool))
         (child : OriginalColumnGroupChild) (parentGroupsOpen : bool)
         (comps : gmap string ColumnItem) : gmap string ColumnItem :=
  let comp := comps !! getId child in
  let comps1 :=
    match comp with
    | Some c =>
        <[getId child :=
            setDisplayed (parentGroupsOpen
                          && passesFilterAt filterResults (getId child)) c]>
          comps
    | None => comps
    end in
  match child with
  | GroupNode _ children =>
      let childrenOpen :=
        match comp with
        | Some c => if parentGroupsOpen then isExpanded c else false
        | None => parentGroupsOpen
        end in
      fold_left (fun acc c => setVisibilityOf filterResults c childrenOpen acc)
                children comps1
  | ColumnNode _ => comps1
  end.

Definition recursivelySetVisibility
           (columnTree : list OriginalColumnGroupChild)
           (parentGroupsOpen : bool)
           (filterResults : option (gmap string bool))
           (p : PrimaryColsListPanel) : PrimaryColsListPanel :=
  withComps
    (fun comps =>
       fold_left
         (fun acc c => setVisibilityOf filterResults c parentGroupsOpen acc)
         columnTree comps) p.

Definition updateVisibilityOfRows (p : PrimaryColsListPanel)
  : PrimaryColsListPanel :=
  let filterResults :=
    if exists_ (filterText p) then Some (createFilterResults p) else None in
  recursivelySetVisibility (columnTree p) true filterResults p.

Definition setFilterText (text : option string) (p : PrimaryColsListPanel)
  : PrimaryColsListPanel :=
  updateVisibilityOfRows
    {| allowDragging := allowDragging p; params := params p;
       columnTree := columnTree p; columnComps := columnComps p;
       filterText := if exists_ text then Js.toLowerCase <$> text else None;
       expandGroupsByDefault := expandGroupsByDefault p;
       listeners := listeners p; gui := gui p; trace := trace p |}.

(** *** Rebuilding *)

Definition onColumnsChanged (beans : Beans) (p : PrimaryColsListPanel)
  : PrimaryColsListPanel :=
  let p1 := destroyColumnComps p in
  let p2 := setColumnTree (getPrimaryColumnTree beans) p1 in
  let groupsExist := isPrimaryColumnGroupsPresent beans in
  let p3 := recursivelyAddComps (columnTree p2) 0 groupsExist p2 in
  updateVisibilityOfRows p3.

(** [colDef && typeof colDef.children !== 'undefined'] *)
Definition isColGroupDef (d : AbstractColDef) : bool :=
  match d with GroupDef _ => true | LeafDef => false end.

Definition setColumnLayout (beans : Beans) (colDefs : list AbstractColDef)
           (p : PrimaryColsListPanel) : PrimaryColsListPanel :=
  let p1 := destroyColumnComps p in
  let p2 := setColumnTree (createColumnTree beans colDefs) p1 in
  let groupsExist := (0 <? length (List.filter isColGroupDef colDefs))%nat in
  let p3 := recursivelyAddComps (columnTree p2) 0 groupsExist p2 in
  updateVisibilityOfRows p3.

(** The service computes the layout of the grid and calls back. *)
Definition syncColumnLayout (beans : Beans) (p : PrimaryColsListPanel)
  : PrimaryColsListPanel :=
  setColumnLayout beans (gridLayout beans) p.

Definition init (beans : Beans) (params0 : ToolPanelColumnCompParams)
           (allowDragging0 : bool) (p : PrimaryColsListPanel)
  : PrimaryColsListPanel :=
  let p1 :=
    {| allowDragging := allowDragging0; params := params0;
       columnTree := columnTree p; columnComps := columnComps p;
       filterText := filterText p;
       expandGroupsByDefault := negb (contractColumnSelection params0);
       listeners :=
         listeners p
         ++ (if syncLayoutWithGrid params0
             then [(EVENT_COLUMN_MOVED, SyncColumnLayout)] else [])
         ++ [(EVENT_COLUMN_EVERYTHING_CHANGED, OnColumnsChanged)];
       gui := gui p; trace := trace p |} in
  if isReady beans then onColumnsChanged beans p1 else p1.

Definition runHandler (beans : Beans) (h : Handler)
           (p : PrimaryColsListPanel) : PrimaryColsListPanel :=
  match h with
  | SyncColumnLayout => syncColumnLayout beans p
  | OnColumnsChanged => onColumnsChanged beans p
  end.

Definition sameEvent (a b : GlobalEvent) : bool :=
  match a, b with
  | EVENT_COLUMN_MOVED, EVENT_COLUMN_MOVED => true
  | EVENT_COLUMN_EVERYTHING_CHANGED, EVENT_COLUMN_EVERYTHING_CHANGED => true
  | _, _ => false
  end.

(** The global event service delivers an event to the listeners the panel
    registered for it, in registration order. *)
Definition globalEvent (beans : Beans) (ev : GlobalEvent)
           (p : PrimaryColsListPanel) : PrimaryColsListPanel :=
  fold_left
    (fun acc l => if sameEvent (fst l) ev then runHandler beans (snd l) acc
                  else acc)
    (listeners p) p.

(** *** Group expansion *)

(** The body of the [forEach] of [recursiveFunc] in [fireExpandedEvent];
    the accumulator is [(expandedCount, notExpandedCount)]. *)
Fixpoint countExpandedItem (comps : gmap string ColumnItem)
         (item : OriginalColumnGroupChild) (counts : nat * nat)
  : nat * nat :=
  match item with
  | GroupNode g groupChildren =>
      let counts1 :=
        match comps !! groupId g with
        | Some comp =>
            if isExpanded comp then (S (fst counts), snd counts)
            else (fst counts, S (snd counts))
        | None => counts
        end in
      fold_left (fun a c => countExpandedItem comps c a) groupChildren counts1
  | ColumnNode _ => counts
  end.

Definition expandedState (expandedCount notExpandedCount : nat)
  : SELECTED_STATE :=
  if (0 <? expandedCount)%nat && (0 <? notExpandedCount)%nat
  then INDETERMINATE
  else if (0 <? notExpandedCount)%nat then UNCHECKED
  else CHECKED.

Definition fireExpandedEvent (p : PrimaryColsListPanel)
  : PrimaryColsListPanel :=
  let counts :=
    fold_left (fun a c => countExpandedItem (columnComps p) c a)
              (columnTree p) (0%nat, 0%nat) in
  emit (DispatchGroupExpanded (expandedState (fst counts) (snd counts))) p.

Definition onGroupExpanded (p : PrimaryColsListPanel)
  : PrimaryColsListPanel :=
  fireExpandedEvent (updateVisibilityOfRows p).

(** Whether a group item that already has the requested expansion flag
    invokes its callback all the same is decided by the item class; the panel
    only calls [setExpanded]. *)
Variable notifiesUnchanged : bool.

(** Modelled from the spec: [renderedItem.setExpanded(value)] of the group
    item class, which is not part of the panel source.  The panel hands every
    group item [this.onGroupExpanded.bind(this)] at construction (line 108):
    the item writes its expansion flag and invokes that callback, so that "on
    any group's expansion change" the panel "recomputes visibility and emits"
    the aggregate event.  [key] is the key under which the item sits in the
    registry. *)
Definition setExpanded (value : bool) (key : string)
           (p : PrimaryColsListPanel) : PrimaryColsListPanel :=
  match columnComps p !! key with
  | Some renderedItem =>
      if Bool.eqb (isExpanded renderedItem) value && negb notifiesUnchanged
      then p
      else onGroupExpanded
             (withComps (insert key (writeExpanded value renderedItem)) p)
  | None => p
  end.

(** [_.iterateObject] visits the keys of the registry; the item of a key is
    read from the panel as the earlier callbacks left it. *)
Definition doSetExpandedAll (value : bool) (p : PrimaryColsListPanel)
  : PrimaryColsListPanel :=
  fold_left
    (fun acc kv =>
       match columnComps acc !! fst kv with
       | Some renderedItem =>
           if isExpandable renderedItem
           then setExpanded value (fst kv) acc else acc
       | None => acc
       end)
    (map_to_list (columnComps p)) p.

Definition shouldSetGroupExpanded (groupIds : list string) (key : string)
           (renderedItem : ColumnItem) : bool :=
  isExpandable renderedItem && (-1 <? Js.arrayIndexOf groupIds key)%Z.

(** The accumulator of the [iterateObject] of [setGroupsExpanded] is the
    panel and [expandedGroupIds]. *)
Definition setGroupsExpanded (expand : bool)
           (groupIds : option (list string)) (p : PrimaryColsListPanel)
  : PrimaryColsListPanel :=
  match groupIds with
  | None => doSetExpandedAll expand p
  | Some ids =>
      let '(p1, expandedGroupIds) :=
        fold_left
          (fun acc kv =>
             match columnComps (fst acc) !! fst kv with
             | Some renderedItem =>
                 if shouldSetGroupExpanded ids (fst kv) renderedItem
                 then (setExpanded expand (fst kv) (fst acc),
                       snd acc ++ [fst kv])
                 else acc
             | None => acc
             end)
          (map_to_list (columnComps p)) (p, []) in
      let unrecognisedGroupIds :=
        List.filter
          (fun groupId => (Js.arrayIndexOf expandedGroupIds groupId <? 0)%Z)
          ids in
      if (0 <? length unrecognisedGroupIds)%nat
      then emit (ConsoleWarn unrecognisedGroupIds) p1
      else p1
  end.

(** *** Select all *)

Definition doSetSelectedAll (beans : Beans) (checked : bool)
           (p : PrimaryColsListPanel) : PrimaryColsListPanel :=
  if isPivotMode beans then
    fold_left (fun acc kv => emit (ItemSelectAllChanged (fst kv) checked) acc)
              (map_to_list (columnComps p)) p
  else
    let primaryCols := getPrimaryColumns beans in
    emit (ApiSetColumnsVisible primaryCols checked) p.

End Panel.

(** * Notions used to state the properties *)

(** Induction on the tree with the hypothesis for every child of a group. *)
Section NodeInduction.

Variable P : OriginalColumnGroupChild -> Prop.
Hypothesis Hcolumn : forall c, P (ColumnNode c).
Hypothesis Hgroup : forall g ch, Forall P ch -> P (GroupNode g ch).

Fixpoint node_ind' (n : OriginalColumnGroupChild) : P n :=
  match n with
  | ColumnNode c => Hcolumn c
  | GroupNode g ch =>
      Hgroup g ch
        ((fix all (l : list OriginalColumnGroupChild) : Forall P l :=
            match l with
            | [] => @Stdlib.Lists.List.Forall_nil _ P
            | x :: r => @Stdlib.Lists.List.Forall_cons _ P x r (node_ind' x) (all r)
            end) ch)
  end.

End NodeInduction.

(** ** Rebuild *)

(** A node gets an item when it is not suppressed, is not a padding group
    and lies under no suppressed group. *)
Definition eligible
           (an : list OriginalColumnGroupChild * OriginalColumnGroupChild)
  : bool :=
  negb (suppressed (snd an)) && negb (isPadding (snd an))
  && forallb (fun a => negb (suppressed a)) (fst an).

(** The indentation of a node: the number of its non-padding ancestors. *)
Definition deptOf (anc : list OriginalColumnGroupChild) : nat :=
  length (List.filter (fun a => negb (isPadding a)) anc).

(** The item a rebuild constructs for a node. *)
Definition itemFor
           (groupExpandable :
              OriginalColumnGroup -> list OriginalColumnGroupChild -> bool)
           (expandByDefault : bool)
           (an : list OriginalColumnGroupChild * OriginalColumnGroupChild)
  : ColumnItem :=
  match snd an with
  | ColumnNode c => newColumnComp c (deptOf (fst an))
  | GroupNode g ch =>
      newGroupComp groupExpandable g ch (deptOf (fst an)) expandByDefault
  end.

Definition entriesOf
           (groupExpandable :
              OriginalColumnGroup -> list OriginalColumnGroupChild -> bool)
           (expandByDefault : bool)
           (l : list (list OriginalColumnGroupChild * OriginalColumnGroupChild))
  : list (string * ColumnItem) :=
  map (fun an => (getId (snd an), itemFor groupExpandable expandByDefault an))
      (List.filter eligible l).

Definition addAll (l : list (string * ColumnItem)) (p : PrimaryColsListPanel)
  : PrimaryColsListPanel :=
  fold_left (fun acc kv => appendComp (fst kv) (snd kv) acc) l p.

Definition insertAll {V} (l : list (string * V)) (m : gmap string V)
  : gmap string V :=
  fold_left (fun acc kv => <[fst kv := snd kv]> acc) l m.

(** ** Visibility *)

(** Two registries agree up to the display flags of their items. *)
Definition sameShape (m R : gmap string ColumnItem) : Prop :=
  forall k, setDisplayed false <$> m !! k = setDisplayed false <$> R !! k.

(** All ancestors that have an item are expanded. *)
Definition openOf (R : gmap string ColumnItem)
           (anc : list OriginalColumnGroupChild) : bool :=
  forallb (fun a => match R !! getId a with
                    | Some c => isExpanded c
                    | None => true
                    end) anc.

Definition hasComp (R : gmap string ColumnItem)
           (an : list OriginalColumnGroupChild * OriginalColumnGroupChild)
  : bool :=
  bool_decide (is_Some (R !! getId (snd an))).

(** The calls of [setDisplayed] one visibility pass makes, in order, when the
    items present and their expansion flags are those of [R]. *)
Fixpoint visOf (filterResults : option (gmap string bool))
         (R : gmap string ColumnItem) (child : OriginalColumnGroupChild)
         (parentGroupsOpen : bool) : list (string * bool) :=
  (match R !! getId child with
   | Some _ =>
       [(getId child,
         parentGroupsOpen && passesFilterAt filterResults (getId child))]
   | None => []
   end)
  ++ match child with
     | GroupNode _ ch =>
         flat_map
           (fun c =>
              visOf filterResults R c
                    (match R !! getId child with
                     | Some it => if parentGroupsOpen then isExpanded it else false
                     | None => parentGroupsOpen
                     end)) ch
     | ColumnNode _ => []
     end.

Definition applyVis (l : list (string * bool)) (m : gmap string ColumnItem)
  : gmap string ColumnItem :=
  fold_left (fun acc kv => alter (setDisplayed (snd kv)) (fst kv) acc) l m.

(** The last value a list of calls gives to key [k]. *)
Fixpoint lastFor (k : string) (l : list (string * bool)) : option bool :=
  match l with
  | [] => None
  | kv :: r =>
      match lastFor k r with
      | Some b => Some b
      | None => if decide (fst kv = k) then Some (snd kv) else None
      end
  end.

Definition applyOpt (o : option bool) (it : ColumnItem) : ColumnItem :=
  match o with
  | Some b => setDisplayed b it
  | None => it
  end.

Definition visEntry (filterResults : option (gmap string bool))
           (R : gmap string ColumnItem)
           (an : list OriginalColumnGroupChild * OriginalColumnGroupChild)
  : string * bool :=
  (getId (snd an),
   openOf R (fst an) && passesFilterAt filterResults (getId (snd an))).


(** ** Filter *)

(** Whether a node passes the filter, by recursion on the tree. *)
Fixpoint passes (comps : gmap string ColumnItem) (ft : option string)
         (n : OriginalColumnGroupChild) : bool :=
  filterPassesOf comps ft n
    (match n with
     | GroupNode _ ch => existsb (passes comps ft) ch
     | ColumnNode _ => false
     end).

(** The writes to [filterResults] of one filter pass, in order. *)
Fixpoint filterEntries (comps : gmap string ColumnItem) (ft : option string)
         (n : OriginalColumnGroupChild) : list (string * bool) :=
  (match n with
   | GroupNode _ ch => flat_map (filterEntries comps ft) ch
   | ColumnNode _ => []
   end) ++ [(getId n, passes comps ft n)].

(** [sub] occurs in [s]. *)
Definition contains (s sub : string) : Prop :=
  exists pre post, s = String.append pre (String.append sub post).


(** The filter results a visibility recomputation works with: [None] when
    filtering is disabled. *)
Definition activeFilterResults (p : PrimaryColsListPanel)
  : option (gmap string bool) :=
  if exists_ (filterText p) then Some (createFilterResults p) else None.

(** The calls of [setDisplayed] of one visibility recomputation. *)
Definition visCalls (p : PrimaryColsListPanel) : list (string * bool) :=
  map (visEntry (activeFilterResults p) (columnComps p))
      (List.filter (hasComp (columnComps p)) (paths (columnTree p))).




(** What [onColumnsChanged] and [setColumnLayout] have in common. *)
Definition rebuildWith
           (groupExpandable :
              OriginalColumnGroup -> list OriginalColumnGroupChild -> bool)
           (tree : list OriginalColumnGroupChild) (groupsExist : bool)
           (p : PrimaryColsListPanel) : PrimaryColsListPanel :=
  updateVisibilityOfRows
    (recursivelyAddComps groupExpandable tree 0 groupsExist
       (setColumnTree tree (destroyColumnComps p))).


(** The display name of a node. *)
Definition nodeDisplayName (n : OriginalColumnGroupChild) : option string :=
  match n with
  | ColumnNode c => colDisplayName c
  | GroupNode g _ => groupDisplayName g
  end.


(** ** Group expansion *)

(** The items of the groups of the tree, in tree order. *)
Definition groupItems (comps : gmap string ColumnItem)
           (nodes : list OriginalColumnGroupChild) : list ColumnItem :=
  flat_map (fun n => if isGroup n
                     then match comps !! getId n with
                          | Some comp => [comp]
                          | None => []
                          end
                     else []) nodes.

Definition expandedGroups (comps : gmap string ColumnItem)
           (tree : list OriginalColumnGroupChild) : nat :=
  length (List.filter isExpanded (groupItems comps (allNodes tree))).

Definition collapsedGroups (comps : gmap string ColumnItem)
           (tree : list OriginalColumnGroupChild) : nat :=
  length (List.filter (fun c => negb (isExpanded c))
                      (groupItems comps (allNodes tree))).



(** A dispatched "groups expanded" event. *)
Definition isGroupExpandedEvent (e : Effect) : Prop :=
  match e with
  | DispatchGroupExpanded _ => True
  | _ => False
  end.

(** The last thing the panel did was to recompute the visibility and to
    dispatch the aggregate state of its groups. *)
Definition freshlyRecomputed (start p : PrimaryColsListPanel) : Prop :=
  columnComps (updateVisibilityOfRows p) = columnComps p
  /\ exists events,
      Forall isGroupExpandedEvent events
      /\ trace p
         = trace start ++ events
           ++ [DispatchGroupExpanded
                 (expandedState
                    (expandedGroups (columnComps p) (columnTree p))
                    (collapsedGroups (columnComps p) (columnTree p)))].

(** One visit of the iteration over the registry's keys in
    [doSetExpandedAll] ([wanted] accepts every key) and [setGroupsExpanded]
    ([wanted] accepts the requested ids). *)
Definition expandStep (notifiesUnchanged : bool) (wanted : string -> bool)
           (value : bool)
           (acc : PrimaryColsListPanel * list string) (key : string)
  : PrimaryColsListPanel * list string :=
  match columnComps (fst acc) !! key with
  | Some renderedItem =>
      if isExpandable renderedItem && wanted key
      then (setExpanded notifiesUnchanged value key (fst acc),
            snd acc ++ [key])
      else acc
  | None => acc
  end.


(** What the visits of the keys [l] make of the item [it] under key [j],
    display flag apart. *)
Definition expandedIn (wanted : string -> bool) (value : bool)
           (l : list string) (j : string) (it : ColumnItem) : ColumnItem :=
  if isExpandable it && wanted j && bool_decide (j ∈ l)
  then writeExpanded value it else it.

(** ** The breadcrumbs of the API documentation

    [Breadcrumbs] of documentation/src/components/ApiDocumentation.jsx.  The
    [breadcrumbs] object is given by its entries in the order of
    [Object.entries]; the fragments pushed to [links] are the two shapes the
    loop builds. *)
Module ApiDocumentation.

Inductive Crumb :=
| CrumbLink (key href title : string)
| CrumbText (key : string).

(** The body of the [forEach]: the accumulator is [(links, href, index)]. *)
Definition crumbStep (breadcrumbsLength : nat)
           (st : list Crumb * string * nat) (entry : string * string)
  : list Crumb * string * nat :=
  let '(links, href, index) := st in
  let '(key, text) := entry in
  let href1 :=
    String.append href
      (String.append (if (0 <? String.length href)%nat then "."
                      else "reference-") key) in
  (links ++ [if (index <? breadcrumbsLength - 1)%nat
             then CrumbLink key (String.append "#" href1) text
             else CrumbText key],
   href1, S index).

(** [None] is the [null] the component returns for at most one crumb. *)
Definition Breadcrumbs (breadcrumbs : list (string * string))
  : option (list Crumb) :=
  let breadcrumbsLength := length breadcrumbs in
  if (breadcrumbsLength <=? 1)%nat then None
  else Some (fst (fst (fold_left (crumbStep breadcrumbsLength) breadcrumbs
                                 ([], "", 0%nat)))).

(** The [id] attribute [Section] gives its header:
    [`reference-${breadcrumbKeys.join('.')}`]. *)
Definition headerId (breadcrumbKeys : list string) : string :=
  String.append "reference-" (String.concat "." breadcrumbKeys).

(** [Object.assign(result, value)]: the own properties of [value] overwrite
    those of [result]; an undefined [value] is skipped. *)
Definition assign {V} (result : gmap string V) (value : option (gmap string V))
  : gmap string V :=
  match value with
  | Some v => v ∪ result
  | None => result
  end.

(** [objects.reduce((result, value) => Object.assign(result, value), {})] *)
Definition mergeObjects {V} (objects : list (option (gmap string V)))
  : gmap string V :=
  fold_left assign objects ∅.

End ApiDocumentation.

(** ** Sample trees and panels *)

Module Examples.

Definition column (id name : string) (suppress : bool) : Column :=
  {| colId := id;
     colDef := Some {| colSuppressToolPanel := suppress |};
     colDisplayName := Some name |}.

Definition group (id name : string) (parent : option string)
           (suppress : bool) : OriginalColumnGroup :=
  {| groupId := id;
     colGroupDef := Some {| groupSuppressToolPanel := suppress |};
     padding := false; originalParent := parent;
     groupDisplayName := Some name |}.

Definition paddingGroup (id : string) (parent : option string)
  : OriginalColumnGroup :=
  {| groupId := id; colGroupDef := None; padding := true;
     originalParent := parent; groupDisplayName := None |}.

Definition alwaysExpandable (g : OriginalColumnGroup)
           (ch : list OriginalColumnGroupChild) : bool := true.

(** Group items that call back only when their expansion flag changes. *)
Definition changesOnly : bool := false.

Definition beansOf (tree : list OriginalColumnGroupChild) (pivot : bool)
  : Beans :=
  {| isReady := true; getPrimaryColumnTree := tree;
     isPrimaryColumnGroupsPresent := existsb isGroup tree;
     isPivotMode := pivot;
     getPrimaryColumns :=
       map getId (List.filter (fun n => negb (isGroup n)) (allNodes tree));
     createColumnTree := fun _ => tree;
     gridLayout := [] |}.

(** The panel as its constructor leaves it. *)
Definition newPanel : PrimaryColsListPanel :=
  {| allowDragging := false;
     params := {| syncLayoutWithGrid := false;
                  contractColumnSelection := false |};
     columnTree := []; columnComps := ∅; filterText := None;
     expandGroupsByDefault := false; listeners := []; gui := [];
     trace := [] |}.

Definition defaultParams : ToolPanelColumnCompParams :=
  {| syncLayoutWithGrid := false; contractColumnSelection := false |}.

Definition panelOf (tree : list OriginalColumnGroupChild) (pivot : bool)
  : PrimaryColsListPanel :=
  init alwaysExpandable (beansOf tree pivot) defaultParams false newPanel.

(** root group -> subgroup -> leaf *)
Definition leaf : OriginalColumnGroupChild :=
  ColumnNode (column "leaf" "Leaf" false).
Definition sub : OriginalColumnGroupChild :=
  GroupNode (group "sub" "Sub" (Some "root") false) [leaf].
Definition root : OriginalColumnGroupChild :=
  GroupNode (group "root" "Root" None false) [sub].
Definition threeLevels : list OriginalColumnGroupChild := [root].

(** The three-level panel with the subgroup collapsed. *)
Definition subCollapsed : PrimaryColsListPanel :=
  setGroupsExpanded changesOnly false (Some ["sub"])
                    (panelOf threeLevels false).

(** A tree with a suppressed group over a column that is not suppressed. *)
Definition hiddenChild : OriginalColumnGroupChild :=
  ColumnNode (column "x" "X" false).
Definition hiddenGroupTree : list OriginalColumnGroupChild :=
  [GroupNode (group "g" "G" None true) [hiddenChild]].

(** A suppressed group, a padding group over a column, a padding group over
    a suppressed column. *)
Definition mixedTree : list OriginalColumnGroupChild :=
  [GroupNode (group "g" "G" None true) [hiddenChild];
   GroupNode (paddingGroup "pad" None) [ColumnNode (column "y" "Y" false)];
   GroupNode (paddingGroup "pad2" None) [ColumnNode (column "z" "Z" true)]].

(** A panel initialised with [contractColumnSelection] set, whose only group
    the user has expanded since. *)
Definition contractedParams : ToolPanelColumnCompParams :=
  {| syncLayoutWithGrid := true; contractColumnSelection := true |}.

Definition contractedPanel : PrimaryColsListPanel :=
  setFilterText (Some "Le")
    (setGroupsExpanded changesOnly true None
       (init alwaysExpandable (beansOf threeLevels false) contractedParams
             true newPanel)).

(** Columns only: no group item at all. *)
Definition flatTree : list OriginalColumnGroupChild :=
  [ColumnNode (column "a" "A" false); ColumnNode (column "b" "B" false)].

(** A padding group inside a real group, next to a real subgroup. *)
Definition nestedPadding : OriginalColumnGroupChild :=
  GroupNode (paddingGroup "p1" (Some "G")) [ColumnNode (column "x" "Cost" false)].
Definition nestedPaddedTree : list OriginalColumnGroupChild :=
  [GroupNode (group "G" "Totals" None false)
             [nestedPadding;
              GroupNode (group "H" "Rates" (Some "G") false)
                        [ColumnNode (column "z" "Tax" false)]]].

(** A top-level column next to a group: the column sits in a padding group
    without parent. *)
Definition topPadding : OriginalColumnGroupChild :=
  GroupNode (paddingGroup "p0" None) [ColumnNode (column "y" "Price" false)].
Definition topPaddedTree : list OriginalColumnGroupChild :=
  [GroupNode (group "G" "Totals" None false)
             [ColumnNode (column "x" "Cost" false)];
   topPadding].

Definition nestedPaddedFiltered : PrimaryColsListPanel :=
  setFilterText (Some "rev") (panelOf nestedPaddedTree false).

Definition topPaddedFiltered : PrimaryColsListPanel :=
  setFilterText (Some "rev") (panelOf topPaddedTree false).

(** Group "A" with the leaves "Revenue" and "Cost", filtered by "rev". *)
Definition revenueTree : list OriginalColumnGroupChild :=
  [GroupNode (group "A" "A" None false)
             [ColumnNode (column "revenue" "Revenue" false);
              ColumnNode (column "cost" "Cost" false)]].

Definition revenueFiltered : PrimaryColsListPanel :=
  setFilterText (Some "rev") (panelOf revenueTree false).

(** A column without display name. *)
Definition unnamedColumn : OriginalColumnGroupChild :=
  ColumnNode {| colId := "n"; colDef := None; colDisplayName := None |}.

Definition unnamedFiltered : PrimaryColsListPanel :=
  setFilterText (Some "rev") (panelOf [unnamedColumn] false).

End Examples.

(** * Reasoning about the tree *)



Lemma subnodes_of_paths anc n : map snd (pathsFrom anc n) = subnodes n.
Proof.
  revert anc. induction n as [c | g ch IH] using node_ind'; intros anc.
  - reflexivity.
  - simpl. f_equal.
    generalize (GroupNode g ch :: anc). intros anc'.
    induction IH as [| x r Hx Hr IHr]; [reflexivity |].
    simpl. now rewrite map_app, Hx, IHr.
Qed.

Lemma allNodes_of_paths tree : map snd (paths tree) = allNodes tree.
Proof.
  unfold paths, allNodes.
  induction tree as [| x r IH]; [reflexivity |].
  simpl. now rewrite map_app, subnodes_of_paths, IH.
Qed.

Lemma in_paths_allNodes tree anc n :
  In (anc, n) (paths tree) -> In n (allNodes tree).
Proof.
  intros H. rewrite <- allNodes_of_paths.
  change n with (snd (anc, n)). now apply in_map.
Qed.

Lemma in_allNodes_paths tree n :
  In n (allNodes tree) -> exists anc, In (anc, n) (paths tree).
Proof.
  rewrite <- allNodes_of_paths. intros H.
  apply in_map_iff in H as [[anc m] [Hm Hin]]. simpl in Hm; subst.
  now exists anc.
Qed.

(** The head of the ancestor list of a node is its parent. *)
Lemma pathsFrom_parent r anc0 a anc n :
  In (a :: anc, n) (pathsFrom anc0 r) ->
  (a :: anc = anc0 /\ n = r)
  \/ (In (anc, a) (pathsFrom anc0 r) /\ In n (getChildren a)).
Proof.
  revert anc0. induction r as [c | g ch IH] using node_ind'; intros anc0 H.
  - simpl in H. destruct H as [H | []]. inversion H; auto.
  - simpl in H. destruct H as [H | H]; [inversion H; auto |].
    right. apply in_flat_map in H as [c [Hc Hin]].
    rewrite Forall_forall in IH.
    destruct (IH c (proj2 (list_elem_of_In _ _) Hc) _ Hin) as [[E1 E2] | [H1 H2]].
    + inversion E1; subst. split; [now left | exact Hc].
    + split; [| exact H2]. right. apply in_flat_map. eauto.
Qed.

Lemma paths_parent tree a anc n :
  In (a :: anc, n) (paths tree) ->
  In (anc, a) (paths tree) /\ In n (getChildren a).
Proof.
  unfold paths. intros H. apply in_flat_map in H as [r [Hr Hin]].
  destruct (pathsFrom_parent _ _ _ _ _ Hin) as [[E _] | [H1 H2]];
    [discriminate |].
  split; [| exact H2]. apply in_flat_map. eauto.
Qed.

Lemma subnodes_self n : In n (subnodes n).
Proof. destruct n; now left. Qed.

Lemma subnodes_child n c : In c (getChildren n) -> In c (subnodes n).
Proof.
  destruct n as [col | g ch]; simpl; [tauto |].
  intros H. right. apply in_flat_map. exists c. split; [exact H |].
  apply subnodes_self.
Qed.

Lemma subnodes_trans n m k :
  In m (subnodes n) -> In k (subnodes m) -> In k (subnodes n).
Proof.
  induction n as [c | g ch IH] using node_ind'; intros Hm Hk.
  - destruct Hm as [<- | []]. exact Hk.
  - destruct Hm as [<- | Hm]; [exact Hk |].
    right. apply in_flat_map in Hm as [c [Hc Hm]].
    apply in_flat_map. exists c. split; [exact Hc |].
    rewrite Forall_forall in IH.
    apply (IH c (proj2 (list_elem_of_In _ _) Hc) Hm Hk).
Qed.

Lemma allNodes_closed tree n k :
  In n (allNodes tree) -> In k (subnodes n) -> In k (allNodes tree).
Proof.
  unfold allNodes. intros Hn Hk.
  apply in_flat_map in Hn as [r [Hr Hn]].
  apply in_flat_map. exists r. split; [exact Hr |].
  eapply subnodes_trans; eauto.
Qed.

(** * Lists and maps *)

Lemma filter_flat_map {A B} (f : B -> bool) (g : A -> list B) l :
  List.filter f (flat_map g l) = flat_map (fun x => List.filter f (g x)) l.
Proof.
  induction l as [| x r IH]; [reflexivity |].
  simpl. now rewrite List.filter_app, IH.
Qed.

Lemma map_of_flat_map {A B C} (h : B -> C) (g : A -> list B) l :
  map h (flat_map g l) = flat_map (fun x => map h (g x)) l.
Proof.
  induction l as [| x r IH]; [reflexivity |].
  simpl. now rewrite map_app, IH.
Qed.

Lemma NoDup_map_filter {A B} (f : A -> B) (q : A -> bool) l :
  NoDup (map f l) -> NoDup (map f (List.filter q l)).
Proof.
  induction l as [| x r IH]; simpl; intros H; [exact H |].
  apply NoDup_cons in H as [Hx Hr].
  destruct (q x); simpl; [| now apply IH].
  apply NoDup_cons. split; [| now apply IH].
  intros Hin. apply Hx.
  apply list_elem_of_In in Hin. apply list_elem_of_In.
  apply in_map_iff in Hin as [y [Hy Hin]].
  apply in_map_iff. exists y. split; [exact Hy |].
  apply List.filter_In in Hin. tauto.
Qed.

Lemma insertAll_app {V} (l1 l2 : list (string * V)) m :
  insertAll (l1 ++ l2) m = insertAll l2 (insertAll l1 m).
Proof. apply fold_left_app. Qed.

Lemma insertAll_notin {V} (l : list (string * V)) m k :
  ~ In k (map fst l) -> insertAll l m !! k = m !! k.
Proof.
  revert m. induction l as [| [k' v] r IH]; intros m H; [reflexivity |].
  simpl in *. rewrite IH by tauto.
  apply lookup_insert_ne. intros E. apply H. now left.
Qed.

Lemma insertAll_in {V} (l : list (string * V)) m k v :
  NoDup (map fst l) -> In (k, v) l -> insertAll l m !! k = Some v.
Proof.
  revert m. induction l as [| [k' v'] r IH]; intros m Hnd Hin; [destruct Hin |].
  simpl in *. apply NoDup_cons in Hnd as [Hk Hr].
  destruct Hin as [E | Hin].
  - inversion E; subst. rewrite insertAll_notin.
    + apply lookup_insert_eq.
    + intros H. apply Hk. now apply list_elem_of_In.
  - now apply IH.
Qed.

Lemma insertAll_inv {V} (l : list (string * V)) m k v :
  insertAll l m !! k = Some v -> In (k, v) l \/ m !! k = Some v.
Proof.
  revert m. induction l as [| [k' v'] r IH]; intros m H; [now right |].
  simpl in H. apply IH in H as [H | H]; [left; now right |].
  destruct (decide (k' = k)) as [-> | Hne].
  - rewrite lookup_insert_eq in H. inversion H; subst. left. now left.
  - rewrite lookup_insert_ne in H by exact Hne. now right.
Qed.

Lemma insertAll_size {V} (l : list (string * V)) m :
  NoDup (map fst l) -> (forall k, In k (map fst l) -> m !! k = None) ->
  size (insertAll l m) = (length l + size m)%nat.
Proof.
  revert m. induction l as [| [k v] r IH]; intros m Hnd Hfresh; [reflexivity |].
  simpl in *. apply NoDup_cons in Hnd as [Hk Hr].
  rewrite IH; [| exact Hr |].
  - rewrite map_size_insert_None by (apply Hfresh; now left). lia.
  - intros k' Hk'. rewrite lookup_insert_ne.
    + apply Hfresh. now right.
    + intros ->. apply Hk. now apply list_elem_of_In.
Qed.

(** * The rebuild inserts exactly the items of the eligible nodes *)

Section RebuildFacts.

Variable groupExpandable :
  OriginalColumnGroup -> list OriginalColumnGroupChild -> bool.

Lemma addAll_app l1 l2 p : addAll (l1 ++ l2) p = addAll l2 (addAll l1 p).
Proof. apply fold_left_app. Qed.

Lemma addAll_expandGroupsByDefault l p :
  expandGroupsByDefault (addAll l p) = expandGroupsByDefault p.
Proof.
  revert p. induction l as [| kv r IH]; intros p; [reflexivity |].
  simpl. now rewrite IH.
Qed.

Lemma addAll_columnComps l p :
  columnComps (addAll l p) = insertAll l (columnComps p).
Proof.
  revert p. induction l as [| kv r IH]; intros p; [reflexivity |].
  simpl. now rewrite IH.
Qed.

Lemma addAll_filterText l p : filterText (addAll l p) = filterText p.
Proof.
  revert p. induction l as [| kv r IH]; intros p; [reflexivity |].
  simpl. now rewrite IH.
Qed.

Lemma addAll_columnTree l p : columnTree (addAll l p) = columnTree p.
Proof.
  revert p. induction l as [| kv r IH]; intros p; [reflexivity |].
  simpl. now rewrite IH.
Qed.

Lemma addAll_listeners l p : listeners (addAll l p) = listeners p.
Proof.
  revert p. induction l as [| kv r IH]; intros p; [reflexivity |].
  simpl. now rewrite IH.
Qed.

Lemma addAll_params l p : params (addAll l p) = params p.
Proof.
  revert p. induction l as [| kv r IH]; intros p; [reflexivity |].
  simpl. now rewrite IH.
Qed.

(** Nothing below a suppressed ancestor is eligible. *)
Lemma no_entries_below_suppressed edflt anc n :
  forallb (fun a => negb (suppressed a)) anc = false ->
  entriesOf groupExpandable edflt (pathsFrom anc n) = [].
Proof.
  revert anc. induction n as [c | g ch IH] using node_ind'; intros anc H.
  - unfold entriesOf, eligible. simpl. rewrite H.
    now rewrite andb_false_r.
  - unfold entriesOf in *. simpl.
    unfold eligible at 1. simpl. rewrite H, andb_false_r.
    assert (H' : forallb (fun a => negb (suppressed a))
                         (GroupNode g ch :: anc) = false)
      by (simpl; now rewrite H, andb_false_r).
    revert H'. generalize (GroupNode g ch :: anc). intros anc' H'.
    induction IH as [| x r Hx Hr IHr]; [reflexivity |].
    simpl. rewrite List.filter_app, map_app, Hx, IHr; auto.
Qed.

Lemma entries_flat_map edflt anc ch :
  entriesOf groupExpandable edflt (flat_map (pathsFrom anc) ch)
  = flat_map (fun c => entriesOf groupExpandable edflt (pathsFrom anc c)) ch.
Proof.
  unfold entriesOf. now rewrite filter_flat_map, map_of_flat_map.
Qed.

Lemma recursivelyAddComps_children anc dept groupsExist ch :
  Forall (fun c => forall anc dept groupsExist p,
              dept = deptOf anc ->
              forallb (fun a => negb (suppressed a)) anc = true ->
              recursivelyAddComp groupExpandable c dept groupsExist p
              = addAll (entriesOf groupExpandable (expandGroupsByDefault p) (pathsFrom anc c)) p)
         ch ->
  dept = deptOf anc ->
  forallb (fun a => negb (suppressed a)) anc = true ->
  forall p,
    fold_left (fun acc c =>
                 recursivelyAddComp groupExpandable c dept groupsExist acc) ch p
    = addAll (entriesOf groupExpandable (expandGroupsByDefault p)
                      (flat_map (pathsFrom anc) ch)) p.
Proof.
  intros IH Hd Hs. induction IH as [| x r Hx Hr IHr]; intros p; [reflexivity |].
  rewrite entries_flat_map. simpl.
  rewrite (Hx anc dept groupsExist p Hd Hs), IHr.
  rewrite addAll_expandGroupsByDefault, addAll_app.
  now rewrite entries_flat_map.
Qed.

Lemma recursivelyAddComp_spec child :
  forall anc dept groupsExist p,
    dept = deptOf anc ->
    forallb (fun a => negb (suppressed a)) anc = true ->
    recursivelyAddComp groupExpandable child dept groupsExist p
    = addAll (entriesOf groupExpandable (expandGroupsByDefault p) (pathsFrom anc child)) p.
Proof.
  induction child as [c | g ch IH] using node_ind';
    intros anc dept groupsExist p Hd Hs.
  - simpl. unfold addColumnComps, entriesOf, eligible. simpl.
    rewrite Hs. destruct (columnSuppressed c); simpl; [reflexivity |].
    unfold itemFor. simpl. now rewrite Hd.
  - simpl. destruct (groupSuppressed g) eqn:Hsup.
    + unfold entriesOf. simpl. unfold eligible at 1. simpl.
      rewrite Hsup. simpl.
      fold (entriesOf groupExpandable (expandGroupsByDefault p)
              (flat_map (pathsFrom (GroupNode g ch :: anc)) ch)).
      rewrite entries_flat_map.
      assert (E : forall l,
                 flat_map (fun c => entriesOf groupExpandable (expandGroupsByDefault p)
                                      (pathsFrom (GroupNode g ch :: anc) c)) l
                 = []).
      { induction l as [| x r IHr]; [reflexivity |]. simpl.
        rewrite no_entries_below_suppressed, IHr; [reflexivity |].
        simpl. now rewrite Hsup. }
      now rewrite E.
    + assert (Hs' : forallb (fun a => negb (suppressed a))
                            (GroupNode g ch :: anc) = true)
        by (simpl; now rewrite Hsup, Hs).
      unfold entriesOf. simpl. unfold eligible at 1. simpl.
      rewrite Hsup, Hs. simpl.
      fold (entriesOf groupExpandable (expandGroupsByDefault p)
              (flat_map (pathsFrom (GroupNode g ch :: anc)) ch)).
      destruct (padding g) eqn:Hpad; simpl.
      * rewrite (recursivelyAddComps_children (GroupNode g ch :: anc));
          auto.
        unfold deptOf. simpl. now rewrite Hpad.
      * rewrite (recursivelyAddComps_children (GroupNode g ch :: anc));
          auto.
        -- unfold itemFor. simpl. now rewrite Hd.
        -- unfold deptOf. simpl. rewrite Hpad. simpl.
           rewrite Hd. unfold deptOf. lia.
Qed.

Lemma recursivelyAddComps_spec tree groupsExist p :
  recursivelyAddComps groupExpandable tree 0 groupsExist p
  = addAll (entriesOf groupExpandable (expandGroupsByDefault p) (paths tree)) p.
Proof.
  unfold recursivelyAddComps, paths.
  apply (recursivelyAddComps_children []); auto.
  apply Forall_forall. intros c _. apply recursivelyAddComp_spec.
Qed.

End RebuildFacts.

(** * The visibility pass as a list of [setDisplayed] calls *)

Lemma setDisplayed_twice b b' it :
  setDisplayed b (setDisplayed b' it) = setDisplayed b it.
Proof. reflexivity. Qed.

Lemma sameShape_refl R : sameShape R R.
Proof. intros k. reflexivity. Qed.

Lemma sameShape_sym m R : sameShape m R -> sameShape R m.
Proof. intros H k. symmetry. apply H. Qed.

Lemma sameShape_trans m1 m2 m3 :
  sameShape m1 m2 -> sameShape m2 m3 -> sameShape m1 m3.
Proof. intros H1 H2 k. now rewrite H1. Qed.

Lemma sameShape_Some m R k c :
  sameShape m R -> m !! k = Some c ->
  exists c', R !! k = Some c'
             /\ isExpanded c' = isExpanded c
             /\ getDisplayName c' = getDisplayName c
             /\ itemIsGroup c' = itemIsGroup c
             /\ isExpandable c' = isExpandable c.
Proof.
  intros H Hk. specialize (H k). rewrite Hk in H.
  destruct (R !! k) as [c' |]; [| discriminate].
  exists c'. split; [reflexivity |].
  simpl in H. inversion H. auto.
Qed.

Lemma sameShape_None m R k : sameShape m R -> m !! k = None -> R !! k = None.
Proof.
  intros H Hk. specialize (H k). rewrite Hk in H.
  destruct (R !! k); [discriminate | reflexivity].
Qed.

Lemma sameShape_alter m R k b :
  sameShape m R -> sameShape (alter (setDisplayed b) k m) R.
Proof.
  intros H j. rewrite <- H.
  destruct (decide (k = j)) as [-> | Hne].
  - rewrite lookup_alter_eq. destruct (m !! j); reflexivity.
  - now rewrite lookup_alter_ne.
Qed.

Lemma sameShape_applyVis l m R : sameShape m R -> sameShape (applyVis l m) R.
Proof.
  revert m. induction l as [| kv r IH]; intros m H; [exact H |].
  simpl. apply IH. now apply sameShape_alter.
Qed.

Lemma applyVis_app l1 l2 m : applyVis (l1 ++ l2) m = applyVis l2 (applyVis l1 m).
Proof. apply fold_left_app. Qed.

Lemma insert_as_alter (m : gmap string ColumnItem) k b c :
  m !! k = Some c -> <[k := setDisplayed b c]> m = alter (setDisplayed b) k m.
Proof.
  intros H. apply map_eq. intros j.
  destruct (decide (k = j)) as [-> | Hne].
  - now rewrite lookup_insert_eq, lookup_alter_eq, H.
  - now rewrite lookup_insert_ne, lookup_alter_ne.
Qed.

Lemma setVisibility_children fr R o ch :
  Forall (fun c => forall o m, sameShape m R ->
                     setVisibilityOf fr c o m = applyVis (visOf fr R c o) m) ch ->
  forall m, sameShape m R ->
    fold_left (fun acc c => setVisibilityOf fr c o acc) ch m
    = applyVis (flat_map (fun c => visOf fr R c o) ch) m.
Proof.
  intros IH. induction IH as [| x r Hx Hr IHr]; intros m Hm; [reflexivity |].
  simpl. rewrite applyVis_app, (Hx o m Hm).
  apply IHr. now apply sameShape_applyVis.
Qed.

Lemma setVisibilityOf_spec fr R child :
  forall o m, sameShape m R ->
    setVisibilityOf fr child o m = applyVis (visOf fr R child o) m.
Proof.
  induction child as [c | g ch IH] using node_ind'; intros o m Hm.
  - simpl. destruct (m !! colId c) as [it |] eqn:E.
    + destruct (sameShape_Some _ _ _ _ Hm E) as [it' [E' _]].
      rewrite E'. simpl. now apply insert_as_alter.
    + now rewrite (sameShape_None _ _ _ Hm E).
  - simpl. destruct (m !! groupId g) as [it |] eqn:E.
    + destruct (sameShape_Some _ _ _ _ Hm E) as [it' [E' [Hx _]]].
      rewrite E'. simpl. rewrite Hx.
      rewrite (insert_as_alter _ _ _ _ E).
      apply setVisibility_children; [exact IH |].
      now apply sameShape_alter.
    + rewrite (sameShape_None _ _ _ Hm E). simpl.
      now apply setVisibility_children.
Qed.

Lemma setVisibility_forest fr R o tree m :
  sameShape m R ->
  fold_left (fun acc c => setVisibilityOf fr c o acc) tree m
  = applyVis (flat_map (fun c => visOf fr R c o) tree) m.
Proof.
  intros Hm. apply setVisibility_children; [| exact Hm].
  apply Forall_forall. intros c _. apply setVisibilityOf_spec.
Qed.

(** The calls, read off the paths of the tree. *)
Lemma visOf_paths fr R child :
  forall anc,
    visOf fr R child (openOf R anc)
    = map (visEntry fr R) (List.filter (hasComp R) (pathsFrom anc child)).
Proof.
  induction child as [c | g ch IH] using node_ind'; intros anc.
  - simpl. unfold hasComp. simpl.
    destruct (R !! colId c) as [it |] eqn:E; reflexivity.
  - simpl. unfold hasComp at 1. simpl.
    set (n := GroupNode g ch).
    assert (Hopen : (match R !! groupId g with
                     | Some it => if openOf R anc then isExpanded it else false
                     | None => openOf R anc
                     end) = openOf R (n :: anc)).
    { unfold n. simpl. destruct (R !! groupId g) as [it |]; [| reflexivity].
      destruct (openOf R anc), (isExpanded it); reflexivity. }
    rewrite Hopen.
    assert (Hch : flat_map (fun c => visOf fr R c (openOf R (n :: anc))) ch
                  = map (visEntry fr R)
                        (List.filter (hasComp R)
                                     (flat_map (pathsFrom (n :: anc)) ch))).
    { generalize (n :: anc). intros anc'. clear Hopen.
      induction IH as [| x r Hx Hr IHr]; [reflexivity |].
      simpl. now rewrite List.filter_app, map_app, Hx, IHr. }
    rewrite Hch.
    destruct (R !! groupId g) as [it |] eqn:E; reflexivity.
Qed.

Lemma visOf_forest fr R tree :
  flat_map (fun c => visOf fr R c true) tree
  = map (visEntry fr R) (List.filter (hasComp R) (paths tree)).
Proof.
  unfold paths. rewrite filter_flat_map, map_of_flat_map.
  induction tree as [| x r IH]; [reflexivity |].
  simpl. rewrite IH. f_equal. apply (visOf_paths fr R x []).
Qed.

Lemma applyVis_lookup l : forall m k,
  applyVis l m !! k = applyOpt (lastFor k l) <$> m !! k.
Proof.
  induction l as [| [k' b'] r IH]; intros m k.
  - simpl. destruct (m !! k); reflexivity.
  - simpl. rewrite IH.
    destruct (lastFor k r) as [b |]; simpl.
    + destruct (decide (k' = k)) as [-> | Hne].
      * rewrite lookup_alter_eq. destruct (m !! k); reflexivity.
      * now rewrite lookup_alter_ne.
    + destruct (decide (k' = k)) as [-> | Hne].
      * rewrite lookup_alter_eq. destruct (m !! k); reflexivity.
      * rewrite lookup_alter_ne by exact Hne. destruct (m !! k); reflexivity.
Qed.

Lemma lastFor_notin k l : ~ In k (map fst l) -> lastFor k l = None.
Proof.
  induction l as [| [k' b'] r IH]; intros H; [reflexivity |].
  simpl in *. rewrite IH by tauto.
  destruct (decide (k' = k)); [tauto | reflexivity].
Qed.

Lemma lastFor_in k b l :
  NoDup (map fst l) -> In (k, b) l -> lastFor k l = Some b.
Proof.
  induction l as [| [k' b'] r IH]; intros Hnd Hin; [destruct Hin |].
  simpl in *. apply NoDup_cons in Hnd as [Hk Hr].
  destruct Hin as [E | Hin].
  - inversion E; subst. rewrite lastFor_notin.
    + now rewrite decide_True.
    + intros H. apply Hk. now apply list_elem_of_In.
  - now rewrite (IH Hr Hin).
Qed.

Lemma applyVis_idempotent l m : applyVis l (applyVis l m) = applyVis l m.
Proof.
  apply map_eq. intros k. rewrite !applyVis_lookup.
  destruct (m !! k) as [it |]; simpl; [| reflexivity].
  destruct (lastFor k l); reflexivity.
Qed.

(** * The filter pass as a list of writes *)

Lemma checkFilter_children comps ft ch :
  Forall (fun c => forall b fr,
              checkFilterItem comps ft c (b, fr)
              = (passes comps ft c || b, insertAll (filterEntries comps ft c) fr))
         ch ->
  forall b fr,
    fold_left (fun a c => checkFilterItem comps ft c a) ch (b, fr)
    = (existsb (passes comps ft) ch || b,
       insertAll (flat_map (filterEntries comps ft) ch) fr).
Proof.
  intros IH. induction IH as [| x r Hx Hr IHr]; intros b fr; [reflexivity |].
  simpl fold_left. rewrite Hx, IHr. simpl.
  rewrite insertAll_app. f_equal.
  destruct (passes comps ft x), (existsb (passes comps ft) r), b; reflexivity.
Qed.

Lemma checkFilterItem_spec comps ft item :
  forall b fr,
    checkFilterItem comps ft item (b, fr)
    = (passes comps ft item || b, insertAll (filterEntries comps ft item) fr).
Proof.
  induction item as [c | g ch IH] using node_ind'; intros b fr.
  - simpl. destruct (filterPassesOf comps ft (ColumnNode c) false); reflexivity.
  - simpl. rewrite (checkFilter_children _ _ _ IH). simpl.
    rewrite orb_false_r, insertAll_app. simpl.
    destruct (filterPassesOf comps ft (GroupNode g ch)
                             (existsb (passes comps ft) ch)); reflexivity.
Qed.

Lemma recursivelyCheckFilter_spec comps ft items fr :
  recursivelyCheckFilter comps ft items fr
  = (existsb (passes comps ft) items,
     insertAll (flat_map (filterEntries comps ft) items) fr).
Proof.
  unfold recursivelyCheckFilter. rewrite checkFilter_children.
  - now rewrite orb_false_r.
  - apply Forall_forall. intros c _. apply checkFilterItem_spec.
Qed.

Lemma filterEntries_keys comps ft n :
  Permutation (map fst (filterEntries comps ft n)) (map getId (subnodes n)).
Proof.
  induction n as [c | g ch IH] using node_ind'.
  - reflexivity.
  - simpl. rewrite map_app. simpl.
    rewrite <- Permutation_cons_append. apply perm_skip.
    induction IH as [| x r Hx Hr IHr]; [reflexivity |].
    simpl. rewrite !map_app. now apply Permutation_app.
Qed.

Lemma filterEntries_forest_keys comps ft tree :
  Permutation (map fst (flat_map (filterEntries comps ft) tree))
              (map getId (allNodes tree)).
Proof.
  unfold allNodes. induction tree as [| x r IH]; [reflexivity |].
  simpl. rewrite !map_app. apply Permutation_app; [| exact IH].
  apply filterEntries_keys.
Qed.

Lemma filterEntries_self comps ft n :
  In (getId n, passes comps ft n) (filterEntries comps ft n).
Proof.
  destruct n as [c | g ch]; [now left |].
  cbn [filterEntries]. apply in_or_app. right. now left.
Qed.

Lemma filterEntries_sub comps ft n k :
  In k (subnodes n) ->
  In (getId k, passes comps ft k) (filterEntries comps ft n).
Proof.
  induction n as [c | g ch IH] using node_ind'; intros Hk.
  - destruct Hk as [<- | []]. apply filterEntries_self.
  - destruct Hk as [<- | Hk]; [apply filterEntries_self |].
    simpl. apply in_or_app. left.
    apply in_flat_map in Hk as [c [Hc Hk]].
    apply in_flat_map. exists c. split; [exact Hc |].
    rewrite Forall_forall in IH.
    now apply (IH c (proj2 (list_elem_of_In _ _) Hc)).
Qed.

Lemma createFilterResults_lookup p n :
  uniqueIds (columnTree p) ->
  In n (allNodes (columnTree p)) ->
  createFilterResults p !! getId n
  = Some (passes (columnComps p) (filterText p) n).
Proof.
  intros Hu Hn. unfold createFilterResults.
  rewrite recursivelyCheckFilter_spec. simpl.
  apply insertAll_in.
  - rewrite filterEntries_forest_keys. exact Hu.
  - unfold allNodes in Hn. apply in_flat_map in Hn as [r [Hr Hn]].
    apply in_flat_map. exists r. split; [exact Hr |].
    now apply filterEntries_sub.
Qed.

Lemma filterPassesOf_shape m R ft n b :
  sameShape m R -> filterPassesOf m ft n b = filterPassesOf R ft n b.
Proof.
  intros H. unfold filterPassesOf. destruct b; [reflexivity |].
  destruct (m !! getId n) as [it |] eqn:E.
  - destruct (sameShape_Some _ _ _ _ H E) as [it' [E' [_ [Hn _]]]].
    now rewrite E', Hn.
  - now rewrite (sameShape_None _ _ _ H E).
Qed.

Lemma passes_shape m R ft n :
  sameShape m R -> passes m ft n = passes R ft n.
Proof.
  intros H. induction n as [c | g ch IH] using node_ind'.
  - cbn [passes]. now apply filterPassesOf_shape.
  - cbn [passes]. rewrite (filterPassesOf_shape m R) by exact H. f_equal.
    induction IH as [| x r Hx Hr IHr]; [reflexivity |].
    simpl. now rewrite Hx, IHr.
Qed.

Lemma filterEntries_shape m R ft n :
  sameShape m R -> filterEntries m ft n = filterEntries R ft n.
Proof.
  intros H. induction n as [c | g ch IH] using node_ind'.
  - cbn [filterEntries]. now rewrite (passes_shape m R).
  - cbn [filterEntries]. rewrite (passes_shape m R ft (GroupNode g ch)) by exact H.
    f_equal.
    induction IH as [| x r Hx Hr IHr]; [reflexivity |].
    simpl. now rewrite Hx, IHr.
Qed.

Lemma recursivelyCheckFilter_shape m R ft tree fr :
  sameShape m R ->
  recursivelyCheckFilter m ft tree fr = recursivelyCheckFilter R ft tree fr.
Proof.
  intros H. rewrite !recursivelyCheckFilter_spec. f_equal.
  - induction tree as [| x r IH]; [reflexivity |].
    simpl. now rewrite (passes_shape m R), IH.
  - f_equal. induction tree as [| x r IH]; [reflexivity |].
    simpl. now rewrite (filterEntries_shape m R), IH.
Qed.

(** * Visibility recomputation *)

Lemma updateVisibility_columnComps p :
  columnComps (updateVisibilityOfRows p) = applyVis (visCalls p) (columnComps p).
Proof.
  unfold updateVisibilityOfRows, recursivelySetVisibility, visCalls. simpl.
  rewrite (setVisibility_forest _ (columnComps p)) by apply sameShape_refl.
  now rewrite visOf_forest.
Qed.

Lemma updateVisibility_shape p :
  sameShape (columnComps (updateVisibilityOfRows p)) (columnComps p).
Proof.
  rewrite updateVisibility_columnComps.
  apply sameShape_applyVis, sameShape_refl.
Qed.

Lemma createFilterResults_shape p q :
  columnTree p = columnTree q -> filterText p = filterText q ->
  sameShape (columnComps p) (columnComps q) ->
  createFilterResults p = createFilterResults q.
Proof.
  intros Ht Hf Hs. unfold createFilterResults.
  now rewrite Ht, Hf, (recursivelyCheckFilter_shape _ _ _ _ _ Hs).
Qed.

Lemma updateVisibility_idempotent p :
  updateVisibilityOfRows (updateVisibilityOfRows p) = updateVisibilityOfRows p.
Proof.
  pose proof (updateVisibility_shape p) as Hs.
  pose proof (updateVisibility_columnComps p) as Hc.
  unfold updateVisibilityOfRows at 1.
  unfold recursivelySetVisibility, withComps.
  assert (Hfr : (if exists_ (filterText (updateVisibilityOfRows p))
                 then Some (createFilterResults (updateVisibilityOfRows p))
                 else None) = activeFilterResults p).
  { unfold activeFilterResults.
    rewrite (createFilterResults_shape (updateVisibilityOfRows p) p);
      [reflexivity | reflexivity | reflexivity | exact Hs]. }
  cbv zeta. rewrite Hfr.
  change (columnTree (updateVisibilityOfRows p)) with (columnTree p).
  rewrite (setVisibility_forest _ (columnComps p)) by exact Hs.
  rewrite visOf_forest. fold (visCalls p).
  rewrite Hc, applyVis_idempotent, <- Hc.
  replace (columnTree p) with (columnTree (updateVisibilityOfRows p))
    by reflexivity.
  clear. now destruct (updateVisibilityOfRows p).
Qed.

Lemma visCalls_keys p :
  uniqueIds (columnTree p) -> NoDup (map fst (visCalls p)).
Proof.
  intros Hu. unfold visCalls. rewrite map_map. simpl.
  apply (NoDup_map_filter (fun an => getId (snd an))).
  rewrite <- (map_map snd getId), allNodes_of_paths. exact Hu.
Qed.

(** With unique identifiers every item of a tree node receives exactly the
    flag computed for that node. *)
Lemma updateVisibility_lookup p anc n :
  uniqueIds (columnTree p) ->
  In (anc, n) (paths (columnTree p)) ->
  columnComps (updateVisibilityOfRows p) !! getId n
  = setDisplayed (openOf (columnComps p) anc
                  && passesFilterAt (activeFilterResults p) (getId n))
    <$> columnComps p !! getId n.
Proof.
  intros Hu Hin. rewrite updateVisibility_columnComps, applyVis_lookup.
  destruct (columnComps p !! getId n) as [c |] eqn:E; [| reflexivity].
  simpl. f_equal.
  rewrite (lastFor_in (getId n)
             (openOf (columnComps p) anc
              && passesFilterAt (activeFilterResults p) (getId n))).
  - reflexivity.
  - now apply visCalls_keys.
  - unfold visCalls.
    apply (in_map (visEntry (activeFilterResults p) (columnComps p)) _ (anc, n)).
    apply List.filter_In. split; [exact Hin |].
    unfold hasComp. simpl. apply bool_decide_eq_true_2. eauto.
Qed.

Lemma passes_child comps ft a c :
  In c (getChildren a) -> passes comps ft c = true -> passes comps ft a = true.
Proof.
  destruct a as [col | g ch]; simpl; [tauto |].
  intros Hc Hp.
  assert (E : existsb (passes comps ft) ch = true)
    by (apply existsb_exists; eauto).
  unfold filterPassesOf. now rewrite E.
Qed.

Lemma passesFilterAt_node p n :
  uniqueIds (columnTree p) ->
  In n (allNodes (columnTree p)) ->
  passesFilterAt (activeFilterResults p) (getId n)
  = if exists_ (filterText p)
    then passes (columnComps p) (filterText p) n else true.
Proof.
  intros Hu Hn. unfold activeFilterResults.
  destruct (exists_ (filterText p)); [| reflexivity].
  simpl. now rewrite createFilterResults_lookup.
Qed.

Lemma passesFilterAt_parent p a c :
  uniqueIds (columnTree p) ->
  In a (allNodes (columnTree p)) ->
  In c (getChildren a) ->
  passesFilterAt (activeFilterResults p) (getId c) = true ->
  passesFilterAt (activeFilterResults p) (getId a) = true.
Proof.
  intros Hu Ha Hc.
  assert (Hc' : In c (allNodes (columnTree p)))
    by (eapply allNodes_closed; [exact Ha | now apply subnodes_child]).
  rewrite !passesFilterAt_node by assumption.
  destruct (exists_ (filterText p)); [| reflexivity].
  now apply passes_child.
Qed.

Lemma ancestors_displayed p :
  uniqueIds (columnTree p) ->
  forall anc n,
    In (anc, n) (paths (columnTree p)) ->
    openOf (columnComps p) anc = true ->
    passesFilterAt (activeFilterResults p) (getId n) = true ->
    forall a ia,
      In a anc ->
      columnComps (updateVisibilityOfRows p) !! getId a = Some ia ->
      isDisplayed ia = true.
Proof.
  intros Hu. induction anc as [| a0 anc IH]; intros n Hin Hopen Hpass a ia Ha Hia;
    [destruct Ha |].
  destruct (paths_parent _ _ _ _ Hin) as [Hin0 Hchild].
  assert (Hpass0 : passesFilterAt (activeFilterResults p) (getId a0) = true).
  { eapply passesFilterAt_parent; eauto. eapply in_paths_allNodes; eauto. }
  simpl in Hopen. apply andb_prop in Hopen as [_ Hopen'].
  destruct Ha as [<- | Ha].
  - rewrite (updateVisibility_lookup p anc a0 Hu Hin0) in Hia.
    destruct (columnComps p !! getId a0) as [c |]; [| discriminate].
    simpl in Hia. inversion Hia. simpl. now rewrite Hopen', Hpass0.
  - eapply (IH a0); eauto.
Qed.

(** * The registry after a rebuild *)

Lemma fmap_Some_eq {A B} (f : A -> B) (x y : A) :
  f <$> Some x = f <$> Some y -> f x = f y.
Proof. intros H. now inversion H. Qed.

Lemma sameShape_size m R : sameShape m R -> size m = size R.
Proof.
  intros H.
  rewrite <- (map_size_fmap (setDisplayed false) m),
          <- (map_size_fmap (setDisplayed false) R).
  f_equal. apply map_eq. intros k. rewrite !lookup_fmap. apply H.
Qed.

Lemma NoDup_map_In_inj {A B} (f : A -> B) l x y :
  NoDup (map f l) -> In x l -> In y l -> f x = f y -> x = y.
Proof.
  induction l as [| z r IH]; simpl; intros Hnd Hx Hy E; [destruct Hx |].
  apply NoDup_cons in Hnd as [Hz Hr].
  destruct Hx as [-> | Hx], Hy as [-> | Hy]; auto.
  - exfalso. apply Hz. apply list_elem_of_In. rewrite E. now apply in_map.
  - exfalso. apply Hz. apply list_elem_of_In. rewrite <- E. now apply in_map.
Qed.

Lemma paths_keys_NoDup tree :
  uniqueIds tree -> NoDup (map (fun an => getId (snd an)) (paths tree)).
Proof.
  intros Hu. now rewrite <- (map_map snd getId), allNodes_of_paths.
Qed.

Section RegistryFacts.

Variable groupExpandable :
  OriginalColumnGroup -> list OriginalColumnGroupChild -> bool.

Lemma onColumnsChanged_rebuildWith beans p :
  onColumnsChanged groupExpandable beans p
  = rebuildWith groupExpandable (getPrimaryColumnTree beans)
                (isPrimaryColumnGroupsPresent beans) p.
Proof. reflexivity. Qed.

Lemma setColumnLayout_rebuildWith beans colDefs p :
  setColumnLayout groupExpandable beans colDefs p
  = rebuildWith groupExpandable (createColumnTree beans colDefs)
                (0 <? length (List.filter isColGroupDef colDefs))%nat p.
Proof. reflexivity. Qed.

Lemma rebuildWith_shape tree groupsExist p :
  sameShape (columnComps (rebuildWith groupExpandable tree groupsExist p))
            (insertAll (entriesOf groupExpandable (expandGroupsByDefault p)
                                  (paths tree)) ∅).
Proof.
  unfold rebuildWith.
  eapply sameShape_trans; [apply updateVisibility_shape |].
  rewrite recursivelyAddComps_spec, addAll_columnComps. simpl.
  apply sameShape_refl.
Qed.

Lemma rebuildWith_frame tree groupsExist p :
  filterText (rebuildWith groupExpandable tree groupsExist p) = filterText p
  /\ expandGroupsByDefault (rebuildWith groupExpandable tree groupsExist p)
     = expandGroupsByDefault p
  /\ columnTree (rebuildWith groupExpandable tree groupsExist p) = tree.
Proof.
  unfold rebuildWith. rewrite recursivelyAddComps_spec.
  unfold updateVisibilityOfRows, recursivelySetVisibility, withComps. simpl.
  rewrite addAll_filterText, addAll_expandGroupsByDefault, addAll_columnTree.
  repeat split.
Qed.

Lemma entries_keys edflt tree :
  uniqueIds tree ->
  NoDup (map fst (entriesOf groupExpandable edflt (paths tree))).
Proof.
  intros Hu. unfold entriesOf. rewrite map_map. simpl.
  apply (NoDup_map_filter (fun an => getId (snd an))).
  now apply paths_keys_NoDup.
Qed.

Lemma rebuildWith_eligible tree groupsExist p anc n :
  uniqueIds tree ->
  In (anc, n) (paths tree) ->
  eligible (anc, n) = true ->
  exists item,
    columnComps (rebuildWith groupExpandable tree groupsExist p) !! getId n
    = Some item
    /\ setDisplayed false item
       = setDisplayed false
           (itemFor groupExpandable (expandGroupsByDefault p) (anc, n)).
Proof.
  intros Hu Hin He.
  pose proof (rebuildWith_shape tree groupsExist p (getId n)) as Hs.
  rewrite (insertAll_in _ _ (getId n)
             (itemFor groupExpandable (expandGroupsByDefault p) (anc, n)))
    in Hs.
  - destruct (columnComps (rebuildWith groupExpandable tree groupsExist p)
              !! getId n) as [item |]; [| discriminate].
    exists item. split; [reflexivity |]. now apply fmap_Some_eq.
  - now apply entries_keys.
  - unfold entriesOf.
    apply (in_map (fun an => (getId (snd an),
                              itemFor groupExpandable (expandGroupsByDefault p) an))
                  _ (anc, n)).
    apply List.filter_In. now split.
Qed.

Lemma rebuildWith_not_eligible tree groupsExist p anc n :
  uniqueIds tree ->
  In (anc, n) (paths tree) ->
  eligible (anc, n) = false ->
  columnComps (rebuildWith groupExpandable tree groupsExist p) !! getId n = None.
Proof.
  intros Hu Hin He.
  pose proof (rebuildWith_shape tree groupsExist p (getId n)) as Hs.
  rewrite insertAll_notin in Hs.
  - rewrite lookup_empty in Hs.
    destruct (columnComps (rebuildWith groupExpandable tree groupsExist p)
              !! getId n); [discriminate | reflexivity].
  - intros Hk. unfold entriesOf in Hk. rewrite map_map in Hk. simpl in Hk.
    apply in_map_iff in Hk as [[anc' m] [Hid Hm]]. simpl in Hid.
    apply List.filter_In in Hm as [Hm Hem].
    assert (E : (anc', m) = (anc, n)).
    { apply (NoDup_map_In_inj (fun an => getId (snd an)) (paths tree));
        auto using paths_keys_NoDup. }
    rewrite E in Hem. congruence.
Qed.

Lemma rebuildWith_size tree groupsExist p :
  uniqueIds tree ->
  size (columnComps (rebuildWith groupExpandable tree groupsExist p))
  = length (List.filter eligible (paths tree)).
Proof.
  intros Hu. rewrite (sameShape_size _ _ (rebuildWith_shape tree groupsExist p)).
  rewrite insertAll_size.
  - rewrite map_size_empty. unfold entriesOf. rewrite length_map. lia.
  - now apply entries_keys.
  - intros k _. apply lookup_empty.
Qed.

(** Every item of a rebuilt registry was built for an eligible node. *)
Lemma rebuildWith_inv tree groupsExist p k item :
  columnComps (rebuildWith groupExpandable tree groupsExist p) !! k = Some item ->
  exists anc n,
    In (anc, n) (paths tree) /\ eligible (anc, n) = true /\ k = getId n
    /\ setDisplayed false item
       = setDisplayed false
           (itemFor groupExpandable (expandGroupsByDefault p) (anc, n)).
Proof.
  intros Hk.
  pose proof (rebuildWith_shape tree groupsExist p k) as Hs.
  rewrite Hk in Hs.
  destruct (insertAll _ _ !! k) as [it0 |] eqn:E; [| discriminate].
  apply insertAll_inv in E as [E | E]; [| now rewrite lookup_empty in E].
  unfold entriesOf in E. apply in_map_iff in E as [[anc n] [E Hin]].
  apply List.filter_In in Hin as [Hin He].
  inversion E; subst. exists anc, n. repeat split; auto.
  now apply fmap_Some_eq.
Qed.

End RegistryFacts.

(** * Descendants *)

Lemma pathsFrom_incl r : forall a0 anc m x,
  In (anc, m) (pathsFrom a0 r) ->
  In x (pathsFrom anc m) -> In x (pathsFrom a0 r).
Proof.
  induction r as [c | g ch IH] using node_ind'; intros a0 anc m x Hm Hx.
  - destruct Hm as [E | []]. inversion E; subst. exact Hx.
  - simpl in Hm. destruct Hm as [E | Hm]; [inversion E; subst; exact Hx |].
    simpl. right. apply in_flat_map in Hm as [c [Hc Hm]].
    apply in_flat_map. exists c. split; [exact Hc |].
    rewrite Forall_forall in IH.
    apply (IH c (proj2 (list_elem_of_In _ _) Hc) _ _ _ _ Hm Hx).
Qed.

Lemma pathsFrom_suffix m : forall anc anc' n,
  In (anc', n) (pathsFrom anc m) ->
  (anc' = anc /\ n = m) \/ In m anc'.
Proof.
  induction m as [c | g ch IH] using node_ind'; intros anc anc' n H.
  - destruct H as [E | []]. inversion E; auto.
  - simpl in H. destruct H as [E | H]; [inversion E; auto |].
    right. apply in_flat_map in H as [c [Hc H]].
    rewrite Forall_forall in IH.
    destruct (IH c (proj2 (list_elem_of_In _ _) Hc) _ _ _ H) as [[-> _] | Hin].
    + now left.
    + assert (Hsub : forall k a1 a2 y,
                 In (a2, y) (pathsFrom a1 k) ->
                 forall z, In z a1 -> In z a2).
      { clear. induction k as [c | g ch IH] using node_ind';
          intros a1 a2 y Hy z Hz.
        - destruct Hy as [E | []]. now inversion E; subst.
        - simpl in Hy. destruct Hy as [E | Hy]; [now inversion E; subst |].
          apply in_flat_map in Hy as [c [Hc Hy]].
          rewrite Forall_forall in IH.
          apply (IH c (proj2 (list_elem_of_In _ _) Hc) _ _ _ Hy).
          now right. }
      apply (Hsub c _ _ _ H). now left.
Qed.

Lemma subnodes_have_paths m : forall anc n,
  In n (subnodes m) -> exists anc', In (anc', n) (pathsFrom anc m).
Proof.
  intros anc n H. rewrite <- (subnodes_of_paths anc) in H.
  apply in_map_iff in H as [[anc' k] [E H]]. simpl in E; subst. eauto.
Qed.

(** A descendant of a node of the tree is in the tree, below that node. *)
Lemma paths_descendant tree anc m n :
  In (anc, m) (paths tree) -> In n (subnodes m) ->
  exists anc', In (anc', n) (paths tree)
               /\ ((anc' = anc /\ n = m) \/ In m anc').
Proof.
  intros Hm Hn. destruct (subnodes_have_paths m anc n Hn) as [anc' H].
  exists anc'. split; [| now apply (pathsFrom_suffix m anc)].
  unfold paths in *. apply in_flat_map in Hm as [r [Hr Hm]].
  apply in_flat_map. exists r. split; [exact Hr |].
  eapply pathsFrom_incl; eauto.
Qed.

Lemma eligible_true_iff anc n :
  eligible (anc, n) = true
  <-> suppressed n = false /\ isPadding n = false
      /\ forall a, In a anc -> suppressed a = false.
Proof.
  unfold eligible. simpl. rewrite !andb_true_iff, !negb_true_iff, forallb_forall.
  split.
  - intros [[H1 H2] H3]. repeat split; auto.
    intros a Ha. apply negb_true_iff. auto.
  - intros [H1 [H2 H3]]. repeat split; auto.
    intros a Ha. apply negb_true_iff. auto.
Qed.

Lemma eligible_false_iff anc n :
  eligible (anc, n) = false
  <-> suppressed n = true \/ isPadding n = true
      \/ exists a, In a anc /\ suppressed a = true.
Proof.
  split.
  - intros H. destruct (suppressed n) eqn:E1; [now left |].
    destruct (isPadding n) eqn:E2; [right; now left |].
    right. right. unfold eligible in H. simpl in H. rewrite E1, E2 in H.
    simpl in H.
    induction anc as [| a r IH]; [discriminate |].
    simpl in H. destruct (suppressed a) eqn:Ea.
    + exists a. split; [now left | exact Ea].
    + simpl in H. destruct (IH H) as [b [Hb Hs]]. exists b. split; [now right | exact Hs].
  - intros H. apply not_true_is_false. intros He.
    apply eligible_true_iff in He as [H1 [H2 H3]].
    destruct H as [H | [H | [a [Ha Hs]]]]; try congruence.
    specialize (H3 a Ha). congruence.
Qed.

(** * Notifications *)

Section NotificationFacts.

Variable groupExpandable :
  OriginalColumnGroup -> list OriginalColumnGroupChild -> bool.

Lemma rebuildWith_group_items tree groupsExist p k item :
  columnComps (rebuildWith groupExpandable tree groupsExist p) !! k = Some item ->
  itemIsGroup item = true ->
  isExpanded item = expandGroupsByDefault p.
Proof.
  intros Hk Hg.
  destruct (rebuildWith_inv groupExpandable _ _ _ _ _ Hk)
    as [anc [n [_ [_ [_ Hs]]]]].
  assert (E1 : isExpanded (setDisplayed false item)
               = isExpanded (setDisplayed false
                               (itemFor groupExpandable
                                        (expandGroupsByDefault p) (anc, n))))
    by now rewrite Hs.
  assert (E2 : itemIsGroup (setDisplayed false item)
               = itemIsGroup (setDisplayed false
                                (itemFor groupExpandable
                                         (expandGroupsByDefault p) (anc, n))))
    by now rewrite Hs.
  simpl in E1, E2. rewrite E1. rewrite Hg in E2.
  destruct n; [discriminate | reflexivity].
Qed.

Lemma runHandler_rebuildWith beans h p :
  exists tree groupsExist,
    runHandler groupExpandable beans h p
    = rebuildWith groupExpandable tree groupsExist p.
Proof.
  destruct h; simpl.
  - unfold syncColumnLayout. rewrite setColumnLayout_rebuildWith. eauto.
  - rewrite onColumnsChanged_rebuildWith. eauto.
Qed.

Lemma globalEvent_frame beans ev l : forall p,
  let r := fold_left
             (fun acc x => if sameEvent (fst x) ev
                           then runHandler groupExpandable beans (snd x) acc
                           else acc) l p in
  filterText r = filterText p
  /\ expandGroupsByDefault r = expandGroupsByDefault p.
Proof.
  induction l as [| x l IH]; intros p; [split; reflexivity |].
  simpl. destruct (sameEvent (fst x) ev).
  - destruct (runHandler_rebuildWith beans (snd x) p) as [t [ge E]].
    destruct (IH (runHandler groupExpandable beans (snd x) p)) as [H1 H2].
    rewrite H1, H2, E.
    destruct (rebuildWith_frame groupExpandable t ge p) as [F1 [F2 _]].
    now rewrite F1, F2.
  - apply IH.
Qed.

Lemma globalEvent_group_items beans ev l : forall p,
  (exists x, In x l /\ sameEvent (fst x) ev = true) ->
  forall k item,
    columnComps
      (fold_left
         (fun acc x => if sameEvent (fst x) ev
                       then runHandler groupExpandable beans (snd x) acc
                       else acc) l p) !! k = Some item ->
    itemIsGroup item = true ->
    isExpanded item = expandGroupsByDefault p.
Proof.
  induction l as [| x l IH] using rev_ind; intros p [y [Hy Hev]] k item Hk Hg.
  - destruct Hy.
  - rewrite fold_left_app in Hk. simpl in Hk.
    destruct (sameEvent (fst x) ev) eqn:Ex.
    + destruct (runHandler_rebuildWith beans (snd x)
                  (fold_left
                     (fun acc x => if sameEvent (fst x) ev
                                   then runHandler groupExpandable beans (snd x) acc
                                   else acc) l p)) as [t [ge E]].
      rewrite E in Hk.
      rewrite (rebuildWith_group_items _ _ _ _ _ Hk Hg).
      apply (globalEvent_frame beans ev l p).
    + apply (IH p) with (k := k); auto.
      apply in_app_or in Hy as [Hy | [<- | []]]; [eauto | congruence].
Qed.

(** [init] registers the rebuild for the structural-change notification and
    derives the default expansion from [contractColumnSelection]. *)
Lemma init_configures beans params0 allowDragging0 p :
  In (EVENT_COLUMN_EVERYTHING_CHANGED, OnColumnsChanged)
     (listeners (init groupExpandable beans params0 allowDragging0 p))
  /\ params (init groupExpandable beans params0 allowDragging0 p) = params0
  /\ expandGroupsByDefault (init groupExpandable beans params0 allowDragging0 p)
     = negb (contractColumnSelection params0).
Proof.
  unfold init. destruct (isReady beans).
  - rewrite onColumnsChanged_rebuildWith. unfold rebuildWith.
    rewrite recursivelyAddComps_spec.
    unfold updateVisibilityOfRows, recursivelySetVisibility, withComps. simpl.
    rewrite addAll_listeners, addAll_params, addAll_expandGroupsByDefault.
    simpl. repeat split.
    apply in_or_app. right. apply in_or_app. right. now left.
  - simpl. repeat split.
    apply in_or_app. right. apply in_or_app. right. now left.
Qed.

End NotificationFacts.

(** * Counting expanded and collapsed groups *)

Lemma groupItems_app comps l1 l2 :
  groupItems comps (l1 ++ l2) = groupItems comps l1 ++ groupItems comps l2.
Proof. apply flat_map_app. Qed.

Lemma countExpanded_children comps ch :
  Forall (fun c => forall e n,
              countExpandedItem comps c (e, n)
              = (e + length (List.filter isExpanded
                                         (groupItems comps (subnodes c))),
                 n + length (List.filter (fun c => negb (isExpanded c))
                                         (groupItems comps (subnodes c)))))%nat
         ch ->
  forall e n,
    fold_left (fun a c => countExpandedItem comps c a) ch (e, n)
    = (e + length (List.filter isExpanded
                               (groupItems comps (flat_map subnodes ch))),
       n + length (List.filter (fun c => negb (isExpanded c))
                               (groupItems comps (flat_map subnodes ch))))%nat.
Proof.
  intros IH. induction IH as [| x r Hx Hr IHr]; intros e n.
  - simpl. f_equal; lia.
  - simpl fold_left. rewrite Hx, IHr. simpl flat_map.
    rewrite groupItems_app, !List.filter_app, !length_app. f_equal; lia.
Qed.

Lemma countExpandedItem_spec comps item :
  forall e n,
    countExpandedItem comps item (e, n)
    = (e + length (List.filter isExpanded (groupItems comps (subnodes item))),
       n + length (List.filter (fun c => negb (isExpanded c))
                               (groupItems comps (subnodes item))))%nat.
Proof.
  induction item as [c | g ch IH] using node_ind'; intros e n.
  - simpl. f_equal; lia.
  - cbn [countExpandedItem subnodes].
    change (groupItems comps (GroupNode g ch :: flat_map subnodes ch))
      with ((match comps !! groupId g with
             | Some comp => [comp]
             | None => []
             end) ++ groupItems comps (flat_map subnodes ch)).
    rewrite !List.filter_app, !length_app.
    destruct (comps !! groupId g) as [comp |]; simpl fst; simpl snd.
    + destruct (isExpanded comp) eqn:E;
        rewrite (countExpanded_children _ _ IH); simpl; rewrite E; simpl;
        f_equal; lia.
    + rewrite (countExpanded_children _ _ IH). simpl. f_equal;lia.
Qed.

Lemma countExpanded_forest comps tree :
  fold_left (fun a c => countExpandedItem comps c a) tree (0, 0)%nat
  = (expandedGroups comps tree, collapsedGroups comps tree).
Proof.
  rewrite countExpanded_children.
  - reflexivity.
  - apply Forall_forall. intros c _. apply countExpandedItem_spec.
Qed.

Lemma onGroupExpanded_trace p :
  trace (onGroupExpanded p)
  = trace p
    ++ [DispatchGroupExpanded
          (expandedState
             (expandedGroups (columnComps (onGroupExpanded p)) (columnTree p))
             (collapsedGroups (columnComps (onGroupExpanded p)) (columnTree p)))].
Proof.
  unfold onGroupExpanded, fireExpandedEvent.
  change (columnTree (updateVisibilityOfRows p)) with (columnTree p).
  rewrite countExpanded_forest. reflexivity.
Qed.

(** * Expanding groups by id *)




(** * Substrings *)

Lemma prefix_iff (a b : string) :
  String.prefix a b = true <-> exists post, b = String.append a post.
Proof.
  revert b. induction a as [| c a IH]; intros b.
  - split; [intros _; now exists b | intros _; now destruct b].
  - destruct b as [| d b]; simpl.
    + split; [discriminate | intros [? ?]; discriminate].
    + destruct (ascii_dec c d) as [-> | Hne].
      * rewrite IH. split; intros [post H]; exists post; [now rewrite H |].
        now inversion H.
      * split; [discriminate |]. intros [post H]. inversion H. congruence.
Qed.

Lemma indexOf_lower s sub : (-1 <= Js.indexOf s sub)%Z.
Proof.
  induction s as [| c r IH]; cbn [Js.indexOf].
  - destruct (String.prefix sub ""); lia.
  - destruct (String.prefix sub (String c r)); [lia |].
    destruct (Js.indexOf r sub <? 0)%Z eqn:E; [lia |].
    apply Z.ltb_ge in E. lia.
Qed.

(** [s.indexOf(sub) >= 0] says that [sub] occurs in [s]. *)
Lemma indexOf_contains s sub :
  (0 <=? Js.indexOf s sub)%Z = true <-> contains s sub.
Proof.
  rewrite Z.leb_le. unfold contains. split.
  - induction s as [| c r IH]; cbn [Js.indexOf].
    + destruct (String.prefix sub "") eqn:E; [| lia].
      intros _. apply prefix_iff in E as [post E]. exists "", post. exact E.
    + destruct (String.prefix sub (String c r)) eqn:E.
      * intros _. apply prefix_iff in E as [post E]. exists "", post. exact E.
      * destruct (Js.indexOf r sub <? 0)%Z eqn:E'; [lia |].
        apply Z.ltb_ge in E'. intros _.
        destruct (IH E') as [pre [post H]].
        exists (String c pre), post. simpl. now rewrite H.
  - intros [pre [post H]]. revert s H.
    induction pre as [| c pre IH]; intros s H.
    + simpl in H.
      assert (E : String.prefix sub s = true)
        by (apply prefix_iff; eauto).
      destruct s; cbn [Js.indexOf]; rewrite E; lia.
    + simpl in H. subst s. cbn [Js.indexOf].
      specialize (IH _ eq_refl).
      change (String.append (String c pre) (String.append sub post))
        with (String c (String.append pre (String.append sub post))).
      cbn [Js.indexOf].
      match goal with |- context [if ?b then _ else _] => destruct b end;
        [lia |].
      match goal with |- context [if ?b then _ else _] => destruct b eqn:E' end.
      * apply Z.ltb_lt in E'. lia.
      * lia.
Qed.

(** * The claims *)

(** C8 — calling [setFilterText] twice with the same text leaves the panel,
    and so the display flag of every registered item, exactly as calling it
    once does. *)
Theorem setFilterText_twice (text : option string) (p : PrimaryColsListPanel) :
  setFilterText text (setFilterText text p) = setFilterText text p
  /\ forall k : string,
      isDisplayed <$> columnComps (setFilterText text (setFilterText text p)) !! k
      = isDisplayed <$> columnComps (setFilterText text p) !! k.
Proof.
  assert (E : setFilterText text (setFilterText text p) = setFilterText text p).
  { unfold setFilterText at 1.
    set (q := setFilterText text p).
    assert (Hq : {| allowDragging := allowDragging q; params := params q;
                    columnTree := columnTree q; columnComps := columnComps q;
                    filterText := if exists_ text then Js.toLowerCase <$> text
                                  else None;
                    expandGroupsByDefault := expandGroupsByDefault q;
                    listeners := listeners q; gui := gui q; trace := trace q |}
                 = q) by reflexivity.
    rewrite Hq. unfold q, setFilterText.
    apply updateVisibility_idempotent. }
  split; [exact E |]. intros k. now rewrite E.
Qed.

(** C1 (amended) — after a visibility recomputation on a tree with unique
    identifiers, the item of a node is displayed if and only if the node
    passes the filter or filtering is disabled, every ancestor group that has
    an item is expanded, and every ancestor that has an item is itself
    displayed.  Ancestors without an item (padding groups) carry no flag and
    impose no condition. *)
Theorem display_flag_iff (p : PrimaryColsListPanel)
        (anc : list OriginalColumnGroupChild) (n : OriginalColumnGroupChild)
        (item : ColumnItem) :
  uniqueIds (columnTree p) ->
  In (anc, n) (paths (columnTree p)) ->
  columnComps (updateVisibilityOfRows p) !! getId n = Some item ->
  isDisplayed item = true
  <-> ((exists_ (filterText p) = false
        \/ createFilterResults p !! getId n = Some true)
       /\ (forall a ia,
              In a anc ->
              columnComps (updateVisibilityOfRows p) !! getId a = Some ia ->
              isExpanded ia = true)
       /\ (forall a ia,
              In a anc ->
              columnComps (updateVisibilityOfRows p) !! getId a = Some ia ->
              isDisplayed ia = true)).
Proof.
  intros Hu Hin Hitem.
  pose proof (updateVisibility_shape p) as Hs.
  assert (Hn : In n (allNodes (columnTree p)))
    by (eapply in_paths_allNodes; eauto).
  assert (Hpass : passesFilterAt (activeFilterResults p) (getId n) = true
                  <-> (exists_ (filterText p) = false
                       \/ createFilterResults p !! getId n = Some true)).
  { unfold activeFilterResults.
    destruct (exists_ (filterText p)); simpl; [| tauto].
    rewrite createFilterResults_lookup by assumption. simpl.
    split; [intros ->; now right | intros [H | H]; congruence]. }
  rewrite (updateVisibility_lookup p anc n Hu Hin) in Hitem.
  destruct (columnComps p !! getId n) as [c |] eqn:Ec; [| discriminate].
  simpl in Hitem. inversion Hitem as [Hi]. simpl. clear Hitem Hi.
  rewrite andb_true_iff, Hpass. split.
  - intros [Hopen Hp]. split; [exact Hp |]. split.
    + intros a ia Ha Hia.
      destruct (sameShape_Some _ _ _ _ Hs Hia) as [ia' [Hia' [Hx _]]].
      rewrite <- Hx. unfold openOf in Hopen.
      rewrite forallb_forall in Hopen. specialize (Hopen a Ha).
      now rewrite Hia' in Hopen.
    + apply (ancestors_displayed p Hu anc n Hin Hopen). now apply Hpass.
  - intros [Hp [Hexp _]]. split; [| exact Hp].
    unfold openOf. apply forallb_forall. intros a Ha.
    destruct (columnComps p !! getId a) as [ca |] eqn:Ea; [| reflexivity].
    destruct (sameShape_Some _ _ _ _ (sameShape_sym _ _ Hs) Ea)
      as [ia [Hia [Hx _]]].
    rewrite <- Hx. eapply Hexp; eauto.
Qed.

Lemma display_flag_iff_witness :
  uniqueIds (columnTree Examples.subCollapsed)
  /\ (isDisplayed
        {| itemIsGroup := false; itemDept := 2; getDisplayName := Some "Leaf";
           isExpandable := false; isExpanded := false; isDisplayed := false |}
      = true
      <-> ((exists_ (filterText Examples.subCollapsed) = false
            \/ createFilterResults Examples.subCollapsed !! "leaf" = Some true)
           /\ (forall a ia,
                  In a [Examples.sub; Examples.root] ->
                  columnComps (updateVisibilityOfRows Examples.subCollapsed)
                  !! getId a = Some ia ->
                  isExpanded ia = true)
           /\ (forall a ia,
                  In a [Examples.sub; Examples.root] ->
                  columnComps (updateVisibilityOfRows Examples.subCollapsed)
                  !! getId a = Some ia ->
                  isDisplayed ia = true))).
Proof.
  assert (Hu : uniqueIds (columnTree Examples.subCollapsed)).
  { unfold uniqueIds. apply (bool_decide_unpack _). vm_compute. exact I. }
  split; [exact Hu |].
  apply (display_flag_iff Examples.subCollapsed
           [Examples.sub; Examples.root] Examples.leaf).
  - exact Hu.
  - vm_compute. right. right. left. reflexivity.
  - vm_compute. reflexivity.
Defined.

(** C2 (amended) — after a rebuild from the column model on a tree with
    unique identifiers, the registry holds exactly one entry for every node
    that is not suppressed, is not a padding group and lies under no
    suppressed group, built for that node, and no entry for any other node
    of the tree. *)
Theorem rebuild_registry_entries
        (groupExpandable :
           OriginalColumnGroup -> list OriginalColumnGroupChild -> bool)
        (beans : Beans) (p : PrimaryColsListPanel) :
  uniqueIds (getPrimaryColumnTree beans) ->
  (forall anc n,
      In (anc, n) (paths (getPrimaryColumnTree beans)) ->
      suppressed n = false -> isPadding n = false ->
      (forall a, In a anc -> suppressed a = false) ->
      exists item,
        columnComps (onColumnsChanged groupExpandable beans p) !! getId n
        = Some item
        /\ itemIsGroup item = isGroup n
        /\ getDisplayName item = nodeDisplayName n)
  /\ (forall anc n,
         In (anc, n) (paths (getPrimaryColumnTree beans)) ->
         suppressed n = true \/ isPadding n = true
         \/ (exists a, In a anc /\ suppressed a = true) ->
         columnComps (onColumnsChanged groupExpandable beans p) !! getId n
         = None)
  /\ size (columnComps (onColumnsChanged groupExpandable beans p))
     = length (List.filter eligible (paths (getPrimaryColumnTree beans))).
Proof.
  intros Hu. rewrite onColumnsChanged_rebuildWith. repeat split.
  - intros anc n Hin H1 H2 H3.
    destruct (rebuildWith_eligible groupExpandable _
                (isPrimaryColumnGroupsPresent beans) p anc n Hu Hin)
      as [item [Hitem Hs]].
    { apply eligible_true_iff. auto. }
    exists item. split; [exact Hitem |].
    assert (E1 : itemIsGroup (setDisplayed false item)
                 = itemIsGroup (setDisplayed false
                                  (itemFor groupExpandable
                                           (expandGroupsByDefault p) (anc, n))))
      by now rewrite Hs.
    assert (E2 : getDisplayName (setDisplayed false item)
                 = getDisplayName (setDisplayed false
                                     (itemFor groupExpandable
                                              (expandGroupsByDefault p) (anc, n))))
      by now rewrite Hs.
    simpl in E1, E2. rewrite E1, E2. destruct n; split; reflexivity.
  - intros anc n Hin H.
    apply (rebuildWith_not_eligible groupExpandable _ _ p anc n Hu Hin).
    now apply eligible_false_iff.
  - now apply rebuildWith_size.
Qed.

(** C9 — a rebuild creates no registry entry for a suppressed group nor for
    any node of its subtree, suppressed or not. *)
Theorem suppressed_group_skips_subtree
        (groupExpandable :
           OriginalColumnGroup -> list OriginalColumnGroupChild -> bool)
        (beans : Beans) (p : PrimaryColsListPanel)
        (anc : list OriginalColumnGroupChild) (g : OriginalColumnGroup)
        (ch : list OriginalColumnGroupChild) (n : OriginalColumnGroupChild) :
  uniqueIds (getPrimaryColumnTree beans) ->
  In (anc, GroupNode g ch) (paths (getPrimaryColumnTree beans)) ->
  groupSuppressed g = true ->
  In n (subnodes (GroupNode g ch)) ->
  columnComps (onColumnsChanged groupExpandable beans p) !! getId n = None.
Proof.
  intros Hu Hg Hs Hn. rewrite onColumnsChanged_rebuildWith.
  destruct (paths_descendant _ _ _ _ Hg Hn) as [anc' [Hin Hrel]].
  apply (rebuildWith_not_eligible groupExpandable _ _ p anc' n Hu Hin).
  apply eligible_false_iff.
  destruct Hrel as [[_ ->] | Hanc].
  - now left.
  - right. right. exists (GroupNode g ch). split; [exact Hanc | exact Hs].
Qed.

(** C7 — the rebuild a structural-change notification triggers leaves the
    filter text and the expand-by-default flag as they were, and every group
    item of the rebuilt registry has the configured default expansion, the
    inverse of [contractColumnSelection], whatever the groups' expansion was
    before. *)
Theorem rebuild_resets_expansion
        (groupExpandable :
           OriginalColumnGroup -> list OriginalColumnGroupChild -> bool)
        (beans : Beans) (p : PrimaryColsListPanel) :
  In (EVENT_COLUMN_EVERYTHING_CHANGED, OnColumnsChanged) (listeners p) ->
  expandGroupsByDefault p = negb (contractColumnSelection (params p)) ->
  filterText (globalEvent groupExpandable beans
                          EVENT_COLUMN_EVERYTHING_CHANGED p)
  = filterText p
  /\ expandGroupsByDefault (globalEvent groupExpandable beans
                                        EVENT_COLUMN_EVERYTHING_CHANGED p)
     = expandGroupsByDefault p
  /\ forall k item,
      columnComps (globalEvent groupExpandable beans
                               EVENT_COLUMN_EVERYTHING_CHANGED p) !! k
      = Some item ->
      itemIsGroup item = true ->
      isExpanded item = negb (contractColumnSelection (params p)).
Proof.
  intros Hl Hd. unfold globalEvent.
  destruct (globalEvent_frame groupExpandable beans
              EVENT_COLUMN_EVERYTHING_CHANGED (listeners p) p) as [H1 H2].
  repeat split; auto.
  intros k item Hk Hg. rewrite <- Hd.
  eapply globalEvent_group_items; eauto.
  exists (EVENT_COLUMN_EVERYTHING_CHANGED, OnColumnsChanged).
  split; [exact Hl | reflexivity].
Qed.

Lemma rebuild_resets_expansion_witness :
  In (EVENT_COLUMN_EVERYTHING_CHANGED, OnColumnsChanged)
     (listeners Examples.contractedPanel)
  /\ expandGroupsByDefault Examples.contractedPanel
     = negb (contractColumnSelection (params Examples.contractedPanel))
  /\ filterText (globalEvent Examples.alwaysExpandable
                             (Examples.beansOf Examples.threeLevels false)
                             EVENT_COLUMN_EVERYTHING_CHANGED
                             Examples.contractedPanel)
     = filterText Examples.contractedPanel
  /\ expandGroupsByDefault
       (globalEvent Examples.alwaysExpandable
                    (Examples.beansOf Examples.threeLevels false)
                    EVENT_COLUMN_EVERYTHING_CHANGED Examples.contractedPanel)
     = expandGroupsByDefault Examples.contractedPanel
  /\ forall k item,
      columnComps
        (globalEvent Examples.alwaysExpandable
                     (Examples.beansOf Examples.threeLevels false)
                     EVENT_COLUMN_EVERYTHING_CHANGED Examples.contractedPanel)
      !! k = Some item ->
      itemIsGroup item = true ->
      isExpanded item
      = negb (contractColumnSelection (params Examples.contractedPanel)).
Proof.
  assert (H1 : In (EVENT_COLUMN_EVERYTHING_CHANGED, OnColumnsChanged)
                  (listeners Examples.contractedPanel))
    by (vm_compute; right; left; reflexivity).
  assert (H2 : expandGroupsByDefault Examples.contractedPanel
               = negb (contractColumnSelection
                         (params Examples.contractedPanel)))
    by (vm_compute; reflexivity).
  split; [exact H1 |]. split; [exact H2 |].
  exact (rebuild_resets_expansion Examples.alwaysExpandable
           (Examples.beansOf Examples.threeLevels false)
           Examples.contractedPanel H1 H2).
Defined.

(** Before the notification the groups of that panel were expanded, against
    the default; the rebuild collapses them again. *)
Example contractedPanel_before_and_after :
  isExpanded <$> columnComps Examples.contractedPanel !! "sub" = Some true
  /\ isExpanded
     <$> columnComps
           (globalEvent Examples.alwaysExpandable
                        (Examples.beansOf Examples.threeLevels false)
                        EVENT_COLUMN_EVERYTHING_CHANGED
                        Examples.contractedPanel) !! "sub"
     = Some false
  /\ filterText Examples.contractedPanel = Some "le".
Proof. vm_compute. repeat split. Qed.

(** C2, as stated, fails: the column below a suppressed group is neither
    suppressed nor a padding group, yet the rebuild gives it no entry. *)
Lemma rebuild_skips_unsuppressed_child :
  uniqueIds Examples.hiddenGroupTree
  /\ In Examples.hiddenChild (allNodes Examples.hiddenGroupTree)
  /\ suppressed Examples.hiddenChild = false
  /\ isPadding Examples.hiddenChild = false
  /\ columnComps
       (onColumnsChanged Examples.alwaysExpandable
                         (Examples.beansOf Examples.hiddenGroupTree false)
                         Examples.newPanel)
     !! getId Examples.hiddenChild = None.
Proof.
  split.
  - unfold uniqueIds. apply (bool_decide_unpack _). vm_compute. exact I.
  - vm_compute. repeat split. right. now left.
Qed.

Lemma rebuild_registry_entries_witness :
  uniqueIds (getPrimaryColumnTree (Examples.beansOf Examples.mixedTree false))
  /\ (forall anc n,
         In (anc, n) (paths (getPrimaryColumnTree
                               (Examples.beansOf Examples.mixedTree false))) ->
         suppressed n = false -> isPadding n = false ->
         (forall a, In a anc -> suppressed a = false) ->
         exists item,
           columnComps (onColumnsChanged Examples.alwaysExpandable
                          (Examples.beansOf Examples.mixedTree false)
                          Examples.newPanel) !! getId n
           = Some item
           /\ itemIsGroup item = isGroup n
           /\ getDisplayName item = nodeDisplayName n)
  /\ (forall anc n,
         In (anc, n) (paths (getPrimaryColumnTree
                               (Examples.beansOf Examples.mixedTree false))) ->
         suppressed n = true \/ isPadding n = true
         \/ (exists a, In a anc /\ suppressed a = true) ->
         columnComps (onColumnsChanged Examples.alwaysExpandable
                        (Examples.beansOf Examples.mixedTree false)
                        Examples.newPanel) !! getId n
         = None)
  /\ size (columnComps (onColumnsChanged Examples.alwaysExpandable
                          (Examples.beansOf Examples.mixedTree false)
                          Examples.newPanel))
     = length (List.filter eligible
                 (paths (getPrimaryColumnTree
                           (Examples.beansOf Examples.mixedTree false)))).
Proof.
  assert (Hu : uniqueIds (getPrimaryColumnTree
                            (Examples.beansOf Examples.mixedTree false))).
  { unfold uniqueIds. apply (bool_decide_unpack _). vm_compute. exact I. }
  split; [exact Hu |].
  exact (rebuild_registry_entries Examples.alwaysExpandable
           (Examples.beansOf Examples.mixedTree false) Examples.newPanel Hu).
Defined.

(** On that tree the registry has the single entry of column "y". *)
Example mixedTree_registry :
  map fst (map_to_list
             (columnComps (onColumnsChanged Examples.alwaysExpandable
                             (Examples.beansOf Examples.mixedTree false)
                             Examples.newPanel)))
  = ["y"].
Proof. vm_compute. reflexivity. Qed.

Lemma suppressed_group_skips_subtree_witness :
  uniqueIds (getPrimaryColumnTree (Examples.beansOf Examples.mixedTree false))
  /\ In ([], GroupNode (Examples.group "g" "G" None true) [Examples.hiddenChild])
        (paths (getPrimaryColumnTree (Examples.beansOf Examples.mixedTree false)))
  /\ groupSuppressed (Examples.group "g" "G" None true) = true
  /\ In Examples.hiddenChild
        (subnodes (GroupNode (Examples.group "g" "G" None true)
                             [Examples.hiddenChild]))
  /\ columnComps (onColumnsChanged Examples.alwaysExpandable
                    (Examples.beansOf Examples.mixedTree false)
                    Examples.newPanel) !! getId Examples.hiddenChild
     = None.
Proof.
  assert (Hu : uniqueIds (getPrimaryColumnTree
                            (Examples.beansOf Examples.mixedTree false))).
  { unfold uniqueIds. apply (bool_decide_unpack _). vm_compute. exact I. }
  assert (H1 : In ([], GroupNode (Examples.group "g" "G" None true)
                                 [Examples.hiddenChild])
                  (paths (getPrimaryColumnTree
                            (Examples.beansOf Examples.mixedTree false))))
    by (vm_compute; left; reflexivity).
  assert (H2 : groupSuppressed (Examples.group "g" "G" None true) = true)
    by reflexivity.
  assert (H3 : In Examples.hiddenChild
                  (subnodes (GroupNode (Examples.group "g" "G" None true)
                                       [Examples.hiddenChild])))
    by (vm_compute; right; left; reflexivity).
  repeat (split; [assumption |]).
  exact (suppressed_group_skips_subtree Examples.alwaysExpandable
           (Examples.beansOf Examples.mixedTree false) Examples.newPanel
           [] (Examples.group "g" "G" None true) [Examples.hiddenChild]
           Examples.hiddenChild Hu H1 H2 H3).
Defined.

(** C6 — on a group expansion change exactly one "groups expanded" event is
    emitted; its state comes from counting, over the whole tree, the group
    items that are expanded and those that are collapsed: mixed iff both
    counts are positive, all-collapsed iff some group is collapsed and none
    expanded, all-expanded otherwise. *)
Theorem groups_expanded_event (p : PrimaryColsListPanel) :
  exists state,
    trace (onGroupExpanded p) = trace p ++ [DispatchGroupExpanded state]
    /\ (state = INDETERMINATE
        <-> (0 < expandedGroups (columnComps (onGroupExpanded p)) (columnTree p)
             /\ 0 < collapsedGroups (columnComps (onGroupExpanded p))
                                    (columnTree p))%nat)
    /\ (state = UNCHECKED
        <-> (0 < collapsedGroups (columnComps (onGroupExpanded p)) (columnTree p)
             /\ expandedGroups (columnComps (onGroupExpanded p)) (columnTree p)
                = 0)%nat)
    /\ (state = CHECKED
        <-> collapsedGroups (columnComps (onGroupExpanded p)) (columnTree p)
            = 0%nat).
Proof.
  eexists. split; [apply onGroupExpanded_trace |].
  unfold expandedState.
  destruct (expandedGroups _ _) as [| e], (collapsedGroups _ _) as [| n];
    simpl; repeat split; intros; try discriminate; try lia;
    try (destruct H; lia); reflexivity.
Qed.

(** C10 — when the walk counts no expanded and no collapsed group item, the
    emitted state is all-expanded. *)
Theorem no_groups_all_expanded (p : PrimaryColsListPanel) :
  expandedGroups (columnComps (onGroupExpanded p)) (columnTree p) = 0%nat ->
  collapsedGroups (columnComps (onGroupExpanded p)) (columnTree p) = 0%nat ->
  trace (onGroupExpanded p) = trace p ++ [DispatchGroupExpanded CHECKED].
Proof.
  intros He Hn. rewrite onGroupExpanded_trace, He, Hn. reflexivity.
Qed.

Lemma no_groups_all_expanded_witness :
  expandedGroups
    (columnComps (onGroupExpanded (Examples.panelOf Examples.flatTree false)))
    (columnTree (Examples.panelOf Examples.flatTree false)) = 0%nat
  /\ collapsedGroups
       (columnComps (onGroupExpanded (Examples.panelOf Examples.flatTree false)))
       (columnTree (Examples.panelOf Examples.flatTree false)) = 0%nat
  /\ trace (onGroupExpanded (Examples.panelOf Examples.flatTree false))
     = trace (Examples.panelOf Examples.flatTree false)
       ++ [DispatchGroupExpanded CHECKED].
Proof.
  assert (H1 : expandedGroups
                 (columnComps
                    (onGroupExpanded (Examples.panelOf Examples.flatTree false)))
                 (columnTree (Examples.panelOf Examples.flatTree false))
               = 0%nat) by (vm_compute; reflexivity).
  assert (H2 : collapsedGroups
                 (columnComps
                    (onGroupExpanded (Examples.panelOf Examples.flatTree false)))
                 (columnTree (Examples.panelOf Examples.flatTree false))
               = 0%nat) by (vm_compute; reflexivity).
  split; [exact H1 |]. split; [exact H2 |].
  exact (no_groups_all_expanded (Examples.panelOf Examples.flatTree false)
                                H1 H2).
Defined.

(** C5 — [doSetSelectedAll]: in pivot mode every registered item gets exactly
    one select-all notification and no bulk call is made; outside pivot mode
    the only effect is one bulk set-visible call on all primary columns.  The
    registry is not touched. *)
Theorem doSetSelectedAll_spec (beans : Beans) (checked : bool)
        (p : PrimaryColsListPanel) :
  columnComps (doSetSelectedAll beans checked p) = columnComps p
  /\ (isPivotMode beans = true ->
      exists notifications,
        trace (doSetSelectedAll beans checked p) = trace p ++ notifications
        /\ NoDup notifications
        /\ forall e,
            In e notifications
            <-> exists key, e = ItemSelectAllChanged key checked
                            /\ is_Some (columnComps p !! key))
  /\ (isPivotMode beans = false ->
      trace (doSetSelectedAll beans checked p)
      = trace p ++ [ApiSetColumnsVisible (getPrimaryColumns beans) checked]).
Proof.
  unfold doSetSelectedAll.
  assert (Hfold : forall l q,
             columnComps
               (fold_left (fun acc kv =>
                             emit (ItemSelectAllChanged (fst kv) checked) acc)
                          l q) = columnComps q
             /\ trace
                  (fold_left (fun acc kv =>
                                emit (ItemSelectAllChanged (fst kv) checked) acc)
                             l q)
                = trace q
                  ++ map (fun kv : string * ColumnItem =>
                            ItemSelectAllChanged (fst kv) checked) l).
  { induction l as [| kv r IH]; intros q; simpl.
    - now rewrite app_nil_r.
    - destruct (IH (emit (ItemSelectAllChanged (fst kv) checked) q))
        as [H1 H2].
      rewrite H1, H2. simpl. now rewrite <- app_assoc. }
  destruct (isPivotMode beans).
  - destruct (Hfold (map_to_list (columnComps p)) p) as [H1 H2].
    split; [exact H1 |]. split; [| discriminate].
    intros _. eexists. split; [exact H2 |]. split.
    + rewrite <- (map_map fst (fun k => ItemSelectAllChanged k checked)).
      apply NoDup_fmap_2; [| apply NoDup_fst_map_to_list].
      intros x y E. now inversion E.
    + intros e. rewrite in_map_iff. split.
      * intros [[k item] [E Hin]]. exists k. split; [now rewrite <- E |].
        apply list_elem_of_In, elem_of_map_to_list in Hin. eauto.
      * intros [k [-> [item Hitem]]]. exists (k, item). split; [reflexivity |].
        now apply list_elem_of_In, elem_of_map_to_list.
  - split; [reflexivity |]. split; [discriminate | reflexivity].
Qed.

Lemma doSetSelectedAll_spec_witness :
  (isPivotMode (Examples.beansOf Examples.threeLevels true) = true
   /\ exists notifications,
       trace (doSetSelectedAll (Examples.beansOf Examples.threeLevels true) true
                (Examples.panelOf Examples.threeLevels true))
       = trace (Examples.panelOf Examples.threeLevels true) ++ notifications
       /\ NoDup notifications
       /\ forall e,
           In e notifications
           <-> exists key,
               e = ItemSelectAllChanged key true
               /\ is_Some (columnComps
                             (Examples.panelOf Examples.threeLevels true)
                           !! key))
  /\ (isPivotMode (Examples.beansOf Examples.threeLevels false) = false
      /\ trace (doSetSelectedAll (Examples.beansOf Examples.threeLevels false)
                  true (Examples.panelOf Examples.threeLevels false))
         = trace (Examples.panelOf Examples.threeLevels false)
           ++ [ApiSetColumnsVisible
                 (getPrimaryColumns (Examples.beansOf Examples.threeLevels false))
                 true]).
Proof.
  split.
  - split; [reflexivity |].
    exact (proj1 (proj2 (doSetSelectedAll_spec
                           (Examples.beansOf Examples.threeLevels true) true
                           (Examples.panelOf Examples.threeLevels true)))
                 eq_refl).
  - split; [reflexivity |].
    exact (proj2 (proj2 (doSetSelectedAll_spec
                           (Examples.beansOf Examples.threeLevels false) true
                           (Examples.panelOf Examples.threeLevels false)))
                 eq_refl).
Defined.

(** Select all on the three-level tree, in and out of pivot mode. *)
Example select_all_traces :
  Permutation
    (trace (doSetSelectedAll (Examples.beansOf Examples.threeLevels true) true
              (Examples.panelOf Examples.threeLevels true)))
    [ItemSelectAllChanged "root" true; ItemSelectAllChanged "sub" true;
     ItemSelectAllChanged "leaf" true]
  /\ trace (doSetSelectedAll (Examples.beansOf Examples.threeLevels false) true
              (Examples.panelOf Examples.threeLevels false))
     = [ApiSetColumnsVisible ["leaf"] true].
Proof.
  split; vm_compute; [| reflexivity].
  apply perm_trans with (l' := [ItemSelectAllChanged "root" true;
                                ItemSelectAllChanged "sub" true;
                                ItemSelectAllChanged "leaf" true]);
    [| reflexivity].
  apply perm_swap.
Qed.

(** C3 (amended) — with filtering active and unique identifiers, the filter
    result of every node of the tree is: true if some child's result is
    true; otherwise, for a node whose item has a display name, true exactly
    when the lower-cased name contains the filter text; otherwise, for a
    node without item that is not a group with a parent (a top-level padding
    group), false. *)
Theorem filter_results (p : PrimaryColsListPanel) (text : string)
        (n : OriginalColumnGroupChild) :
  filterText p = Some text ->
  Js.truthy text = true ->
  uniqueIds (columnTree p) ->
  In n (allNodes (columnTree p)) ->
  ((exists c, In c (getChildren n)
              /\ createFilterResults p !! getId c = Some true) ->
   createFilterResults p !! getId n = Some true)
  /\ ((forall c, In c (getChildren n) ->
                 createFilterResults p !! getId c = Some false) ->
      (forall item name,
          columnComps p !! getId n = Some item ->
          getDisplayName item = Some name ->
          exists b, createFilterResults p !! getId n = Some b
                    /\ (b = true <-> contains (Js.toLowerCase name) text))
      /\ (columnComps p !! getId n = None ->
          groupWithParent n = false ->
          createFilterResults p !! getId n = Some false)).
Proof.
  intros Hft Htr Hu Hn.
  assert (Hch : forall c, In c (getChildren n) ->
                          createFilterResults p !! getId c
                          = Some (passes (columnComps p) (filterText p) c)).
  { intros c Hc. apply createFilterResults_lookup; [exact Hu |].
    eapply allNodes_closed; [exact Hn | now apply subnodes_child]. }
  rewrite (createFilterResults_lookup p n Hu Hn).
  split.
  - intros [c [Hc Hp]]. rewrite (Hch c Hc) in Hp.
    f_equal. apply (passes_child _ _ n c Hc). congruence.
  - intros Hnone.
    assert (E : match n with
                | GroupNode _ ch => existsb (passes (columnComps p) (filterText p)) ch
                | ColumnNode _ => false
                end = false).
    { destruct n as [c | g ch]; [reflexivity |].
      apply not_true_is_false. intros H.
      apply existsb_exists in H as [c [Hc Hp]].
      specialize (Hnone c Hc). rewrite (Hch c Hc), Hp in Hnone. discriminate. }
    assert (Hpass : passes (columnComps p) (filterText p) n
                    = filterPassesOf (columnComps p) (filterText p) n false)
      by (destruct n; cbn [passes]; now rewrite ?E).
    rewrite Hpass. unfold filterPassesOf. rewrite Hft. split.
    + intros item name Hitem Hname. rewrite Hitem, Htr, Hname.
      eexists. split; [reflexivity |]. apply indexOf_contains.
    + intros Hno Hgp. now rewrite Hno, Hgp.
Qed.

(** C3, as stated, fails: of two padding groups without item whose children
    do not pass, the one with a parent passes and the one without fails. *)
Lemma padding_filter_results :
  (exists_ (filterText Examples.nestedPaddedFiltered) = true
   /\ uniqueIds (columnTree Examples.nestedPaddedFiltered)
   /\ In Examples.nestedPadding
         (allNodes (columnTree Examples.nestedPaddedFiltered))
   /\ isPadding Examples.nestedPadding = true
   /\ groupWithParent Examples.nestedPadding = true
   /\ columnComps Examples.nestedPaddedFiltered !! "p1" = None
   /\ createFilterResults Examples.nestedPaddedFiltered !! "x" = Some false
   /\ createFilterResults Examples.nestedPaddedFiltered !! "p1" = Some true)
  /\ (exists_ (filterText Examples.topPaddedFiltered) = true
      /\ uniqueIds (columnTree Examples.topPaddedFiltered)
      /\ In Examples.topPadding
            (allNodes (columnTree Examples.topPaddedFiltered))
      /\ isPadding Examples.topPadding = true
      /\ groupWithParent Examples.topPadding = false
      /\ columnComps Examples.topPaddedFiltered !! "p0" = None
      /\ createFilterResults Examples.topPaddedFiltered !! "y" = Some false
      /\ createFilterResults Examples.topPaddedFiltered !! "p0" = Some false).
Proof.
  split.
  - split; [reflexivity |]. split.
    + unfold uniqueIds. apply (bool_decide_unpack _). vm_compute. exact I.
    + vm_compute. repeat split. right. left. reflexivity.
  - split; [reflexivity |]. split.
    + unfold uniqueIds. apply (bool_decide_unpack _). vm_compute. exact I.
    + vm_compute. repeat split. right. right. left. reflexivity.
Qed.

Lemma filter_results_witness :
  filterText Examples.revenueFiltered = Some "rev"
  /\ Js.truthy "rev" = true
  /\ uniqueIds (columnTree Examples.revenueFiltered)
  /\ In (ColumnNode (Examples.column "revenue" "Revenue" false))
        (allNodes (columnTree Examples.revenueFiltered))
  /\ ((exists c,
          In c (getChildren (ColumnNode (Examples.column "revenue" "Revenue" false)))
          /\ createFilterResults Examples.revenueFiltered !! getId c = Some true) ->
      createFilterResults Examples.revenueFiltered
      !! getId (ColumnNode (Examples.column "revenue" "Revenue" false))
      = Some true)
  /\ ((forall c,
          In c (getChildren (ColumnNode (Examples.column "revenue" "Revenue" false))) ->
          createFilterResults Examples.revenueFiltered !! getId c = Some false) ->
      (forall item name,
          columnComps Examples.revenueFiltered
          !! getId (ColumnNode (Examples.column "revenue" "Revenue" false))
          = Some item ->
          getDisplayName item = Some name ->
          exists b,
            createFilterResults Examples.revenueFiltered
            !! getId (ColumnNode (Examples.column "revenue" "Revenue" false))
            = Some b
            /\ (b = true <-> contains (Js.toLowerCase name) "rev"))
      /\ (columnComps Examples.revenueFiltered
          !! getId (ColumnNode (Examples.column "revenue" "Revenue" false))
          = None ->
          groupWithParent (ColumnNode (Examples.column "revenue" "Revenue" false))
          = false ->
          createFilterResults Examples.revenueFiltered
          !! getId (ColumnNode (Examples.column "revenue" "Revenue" false))
          = Some false)).
Proof.
  assert (H1 : filterText Examples.revenueFiltered = Some "rev")
    by (vm_compute; reflexivity).
  assert (H2 : Js.truthy "rev" = true) by reflexivity.
  assert (H3 : uniqueIds (columnTree Examples.revenueFiltered)).
  { unfold uniqueIds. apply (bool_decide_unpack _). vm_compute. exact I. }
  assert (H4 : In (ColumnNode (Examples.column "revenue" "Revenue" false))
                  (allNodes (columnTree Examples.revenueFiltered)))
    by (vm_compute; right; left; reflexivity).
  repeat (split; [assumption |]).
  exact (filter_results Examples.revenueFiltered "rev"
           (ColumnNode (Examples.column "revenue" "Revenue" false))
           H1 H2 H3 H4).
Defined.

(** Group "A" over "Revenue" and "Cost", filter "rev": "Revenue" and "A" are
    displayed, "Cost" is hidden. *)
Example revenue_scenario :
  isDisplayed <$> columnComps Examples.revenueFiltered !! "revenue" = Some true
  /\ isDisplayed <$> columnComps Examples.revenueFiltered !! "cost" = Some false
  /\ isDisplayed <$> columnComps Examples.revenueFiltered !! "A" = Some true.
Proof. vm_compute. repeat split. Qed.

(** On the tree with the nested padding group nothing matches "rev", yet
    group "G" stays displayed because its padding child counts as passing. *)
Example padded_group_displayed :
  createFilterResults Examples.nestedPaddedFiltered !! "z" = Some false
  /\ createFilterResults Examples.nestedPaddedFiltered !! "H" = Some false
  /\ createFilterResults Examples.nestedPaddedFiltered !! "G" = Some true
  /\ isDisplayed <$> columnComps Examples.nestedPaddedFiltered !! "G"
     = Some true
  /\ isDisplayed <$> columnComps Examples.nestedPaddedFiltered !! "x"
     = Some false.
Proof. vm_compute. repeat split. Qed.

(** C1, as stated, fails: column "y" is displayed although its ancestor, the
    padding group "p0", has no item and so is neither displayed nor
    expanded. *)
Lemma displayed_below_padding_group :
  uniqueIds (columnTree (Examples.panelOf Examples.topPaddedTree false))
  /\ In ([Examples.topPadding],
         ColumnNode (Examples.column "y" "Price" false))
        (paths (columnTree (Examples.panelOf Examples.topPaddedTree false)))
  /\ isPadding Examples.topPadding = true
  /\ isDisplayed
     <$> columnComps (updateVisibilityOfRows
                        (Examples.panelOf Examples.topPaddedTree false)) !! "y"
     = Some true
  /\ columnComps (updateVisibilityOfRows
                    (Examples.panelOf Examples.topPaddedTree false))
     !! getId Examples.topPadding = None.
Proof.
  split.
  - unfold uniqueIds. apply (bool_decide_unpack _). vm_compute. exact I.
  - vm_compute. repeat split. right. right. right. left. reflexivity.
Qed.

(** * Further properties of the panel *)

Section RebuildFurther.

Variable groupExpandable :
  OriginalColumnGroup -> list OriginalColumnGroupChild -> bool.

Lemma addAll_gui l p : gui (addAll l p) = gui p ++ map fst l.
Proof.
  revert p. induction l as [| kv r IH]; intros p; simpl.
  - now rewrite app_nil_r.
  - rewrite IH. simpl. now rewrite <- app_assoc.
Qed.

Lemma addAll_trace l p : trace (addAll l p) = trace p.
Proof.
  revert p. induction l as [| kv r IH]; intros p; [reflexivity |].
  simpl. now rewrite IH.
Qed.

Lemma addAll_allowDragging l p : allowDragging (addAll l p) = allowDragging p.
Proof.
  revert p. induction l as [| kv r IH]; intros p; [reflexivity |].
  simpl. now rewrite IH.
Qed.

Lemma rebuildWith_gui tree groupsExist p :
  gui (rebuildWith groupExpandable tree groupsExist p)
  = map (fun an => getId (snd an)) (List.filter eligible (paths tree)).
Proof.
  unfold rebuildWith. rewrite recursivelyAddComps_spec.
  unfold updateVisibilityOfRows, recursivelySetVisibility, withComps. simpl.
  rewrite addAll_gui. simpl. unfold entriesOf. now rewrite map_map.
Qed.

Lemma rebuildWith_trace tree groupsExist p :
  trace (rebuildWith groupExpandable tree groupsExist p) = trace p.
Proof.
  unfold rebuildWith. rewrite recursivelyAddComps_spec.
  unfold updateVisibilityOfRows, recursivelySetVisibility, withComps. simpl.
  now rewrite addAll_trace.
Qed.

Lemma rebuildWith_other_fields tree groupsExist p :
  allowDragging (rebuildWith groupExpandable tree groupsExist p)
  = allowDragging p
  /\ params (rebuildWith groupExpandable tree groupsExist p) = params p
  /\ listeners (rebuildWith groupExpandable tree groupsExist p) = listeners p.
Proof.
  unfold rebuildWith. rewrite recursivelyAddComps_spec.
  unfold updateVisibilityOfRows, recursivelySetVisibility, withComps. simpl.
  now rewrite addAll_allowDragging, addAll_params, addAll_listeners.
Qed.

(** The registry the rebuild hands to the visibility pass. *)
Lemma entries_lookup edflt tree anc n :
  uniqueIds tree ->
  In (anc, n) (paths tree) ->
  insertAll (entriesOf groupExpandable edflt (paths tree)) ∅ !! getId n
  = if eligible (anc, n)
    then Some (itemFor groupExpandable edflt (anc, n)) else None.
Proof.
  intros Hu Hin. destruct (eligible (anc, n)) eqn:He.
  - apply insertAll_in; [now apply entries_keys |].
    unfold entriesOf.
    apply (in_map (fun an => (getId (snd an),
                              itemFor groupExpandable edflt an)) _ (anc, n)).
    apply List.filter_In. now split.
  - rewrite insertAll_notin; [apply lookup_empty |].
    intros Hk. unfold entriesOf in Hk. rewrite map_map in Hk. simpl in Hk.
    apply in_map_iff in Hk as [[anc' m] [Hid Hm]]. simpl in Hid.
    apply List.filter_In in Hm as [Hm Hem].
    assert (E : (anc', m) = (anc, n)).
    { apply (NoDup_map_In_inj (fun an => getId (snd an)) (paths tree));
        auto using paths_keys_NoDup. }
    rewrite E in Hem. congruence.
Qed.

End RebuildFurther.

(** X1 — a rebuild clears the rendered output and appends one row per node
    that gets an item, in the order of the tree: a group before its children,
    siblings in source order. *)
Theorem rebuild_render_order
        (groupExpandable :
           OriginalColumnGroup -> list OriginalColumnGroupChild -> bool)
        (beans : Beans) (p : PrimaryColsListPanel) :
  gui (onColumnsChanged groupExpandable beans p)
  = map (fun an => getId (snd an))
        (List.filter eligible (paths (getPrimaryColumnTree beans))).
Proof. rewrite onColumnsChanged_rebuildWith. apply rebuildWith_gui. Qed.

(** X2 — the indentation of a rebuilt item is the number of non-padding
    groups above its node: a padding group adds no indent. *)
Theorem rebuild_indentation
        (groupExpandable :
           OriginalColumnGroup -> list OriginalColumnGroupChild -> bool)
        (beans : Beans) (p : PrimaryColsListPanel)
        (anc : list OriginalColumnGroupChild) (n : OriginalColumnGroupChild)
        (item : ColumnItem) :
  uniqueIds (getPrimaryColumnTree beans) ->
  In (anc, n) (paths (getPrimaryColumnTree beans)) ->
  columnComps (onColumnsChanged groupExpandable beans p) !! getId n
  = Some item ->
  itemDept item = length (List.filter (fun a => negb (isPadding a)) anc).
Proof.
  intros Hu Hin Hitem. rewrite onColumnsChanged_rebuildWith in Hitem.
  destruct (eligible (anc, n)) eqn:He.
  - destruct (rebuildWith_eligible groupExpandable _
                (isPrimaryColumnGroupsPresent beans) p anc n Hu Hin He)
      as [item' [Hitem' Hs]].
    rewrite Hitem in Hitem'. inversion Hitem'; subst item'.
    assert (E : itemDept (setDisplayed false item)
                = itemDept (setDisplayed false
                              (itemFor groupExpandable
                                       (expandGroupsByDefault p) (anc, n))))
      by now rewrite Hs.
    simpl in E. rewrite E. destruct n; reflexivity.
  - rewrite (rebuildWith_not_eligible groupExpandable _ _ p anc n Hu Hin He)
      in Hitem.
    discriminate.
Qed.

(** X3 — [setColumnLayout] replaces the tree by the one the service builds
    from the definitions and leaves no stale item: with unique identifiers a
    node of the new tree has an item exactly when it is not suppressed, not a
    padding group and under no suppressed group, and every key of the
    registry is the identifier of such a node. *)
Theorem setColumnLayout_registry
        (groupExpandable :
           OriginalColumnGroup -> list OriginalColumnGroupChild -> bool)
        (beans : Beans) (colDefs : list AbstractColDef)
        (p : PrimaryColsListPanel) :
  uniqueIds (createColumnTree beans colDefs) ->
  columnTree (setColumnLayout groupExpandable beans colDefs p)
  = createColumnTree beans colDefs
  /\ (forall anc n,
         In (anc, n) (paths (createColumnTree beans colDefs)) ->
         is_Some (columnComps (setColumnLayout groupExpandable beans colDefs p)
                  !! getId n)
         <-> suppressed n = false /\ isPadding n = false
             /\ forall a, In a anc -> suppressed a = false)
  /\ (forall k,
         is_Some (columnComps (setColumnLayout groupExpandable beans colDefs p)
                  !! k) ->
         exists n, In n (allNodes (createColumnTree beans colDefs))
                   /\ getId n = k).
Proof.
  intros Hu. rewrite setColumnLayout_rebuildWith.
  split; [apply rebuildWith_frame |]. split.
  - intros anc n Hin. split.
    + intros [item Hitem]. apply eligible_true_iff.
      destruct (eligible (anc, n)) eqn:He; [reflexivity |].
      rewrite (rebuildWith_not_eligible groupExpandable _ _ p anc n Hu Hin He)
        in Hitem.
      discriminate.
    + intros He. apply eligible_true_iff in He.
      destruct (rebuildWith_eligible groupExpandable _
                  (0 <? length (List.filter isColGroupDef colDefs))%nat
                  p anc n Hu Hin He) as [item [Hitem _]].
      eauto.
  - intros k [item Hitem].
    destruct (rebuildWith_inv groupExpandable _ _ _ _ _ Hitem)
      as [anc [n [Hin [_ [-> _]]]]].
    exists n. split; [| reflexivity]. eapply in_paths_allNodes; eauto.
Qed.

Lemma init_listeners
      (groupExpandable :
         OriginalColumnGroup -> list OriginalColumnGroupChild -> bool)
      beans params0 allowDragging0 p :
  listeners (init groupExpandable beans params0 allowDragging0 p)
  = listeners p
    ++ (if syncLayoutWithGrid params0
        then [(EVENT_COLUMN_MOVED, SyncColumnLayout)] else [])
    ++ [(EVENT_COLUMN_EVERYTHING_CHANGED, OnColumnsChanged)].
Proof.
  unfold init. destruct (isReady beans); [| reflexivity].
  rewrite onColumnsChanged_rebuildWith.
  now rewrite (proj2 (proj2 (rebuildWith_other_fields groupExpandable _ _ _))).
Qed.

(** X4 — what [init] subscribes a fresh panel to: a structural-change
    notification always runs [onColumnsChanged] (whether or not the first
    build was deferred), and a column-moved notification runs
    [syncColumnLayout] only when [syncLayoutWithGrid] is set; otherwise it
    leaves the panel as it is. *)
Theorem init_subscriptions
        (groupExpandable :
           OriginalColumnGroup -> list OriginalColumnGroupChild -> bool)
        (beans later : Beans) (params0 : ToolPanelColumnCompParams)
        (allowDragging0 : bool) (p : PrimaryColsListPanel) :
  listeners p = [] ->
  globalEvent groupExpandable later EVENT_COLUMN_EVERYTHING_CHANGED
              (init groupExpandable beans params0 allowDragging0 p)
  = onColumnsChanged groupExpandable later
                     (init groupExpandable beans params0 allowDragging0 p)
  /\ globalEvent groupExpandable later EVENT_COLUMN_MOVED
                 (init groupExpandable beans params0 allowDragging0 p)
     = if syncLayoutWithGrid params0
       then syncColumnLayout groupExpandable later
                             (init groupExpandable beans params0
                                   allowDragging0 p)
       else init groupExpandable beans params0 allowDragging0 p.
Proof.
  intros Hl. unfold globalEvent. rewrite init_listeners, Hl.
  destruct (syncLayoutWithGrid params0); split; reflexivity.
Qed.

Lemma rebuildWith_forgets
      (groupExpandable :
         OriginalColumnGroup -> list OriginalColumnGroupChild -> bool)
      tree groupsExist tree0 groupsExist0 p :
  rebuildWith groupExpandable tree groupsExist
              (rebuildWith groupExpandable tree0 groupsExist0 p)
  = rebuildWith groupExpandable tree groupsExist p.
Proof.
  unfold rebuildWith at 1.
  set (q := rebuildWith groupExpandable tree0 groupsExist0 p).
  assert (E : setColumnTree tree (destroyColumnComps q)
              = setColumnTree tree (destroyColumnComps p)).
  { unfold setColumnTree, destroyColumnComps.
    cbn [allowDragging params columnTree columnComps filterText
         expandGroupsByDefault listeners gui trace].
    unfold q.
    destruct (rebuildWith_frame groupExpandable tree0 groupsExist0 p)
      as [H1 [H2 _]].
    destruct (rebuildWith_other_fields groupExpandable tree0 groupsExist0 p)
      as [H3 [H4 H5]].
    now rewrite H1, H2, H3, H4, H5, rebuildWith_trace. }
  now rewrite E.
Qed.

(** X5 — a rebuild keeps nothing of an earlier rebuild: rebuilding from a
    second column model gives the panel that the second rebuild alone gives,
    so rebuilding twice from the same model equals rebuilding once. *)
Theorem rebuild_forgets_previous
        (groupExpandable :
           OriginalColumnGroup -> list OriginalColumnGroupChild -> bool)
        (first second : Beans) (p : PrimaryColsListPanel) :
  onColumnsChanged groupExpandable second
                   (onColumnsChanged groupExpandable first p)
  = onColumnsChanged groupExpandable second p.
Proof. rewrite !onColumnsChanged_rebuildWith. apply rebuildWith_forgets. Qed.

(** X6 — rebuilding, from the column model or from an explicit layout,
    dispatches no event, logs no warning and calls nothing on the column
    API; in particular the reset of the groups' expansion is not announced
    by a "groups expanded" event. *)
Theorem rebuild_is_silent
        (groupExpandable :
           OriginalColumnGroup -> list OriginalColumnGroupChild -> bool)
        (beans : Beans) (colDefs : list AbstractColDef)
        (p : PrimaryColsListPanel) :
  trace (onColumnsChanged groupExpandable beans p) = trace p
  /\ trace (setColumnLayout groupExpandable beans colDefs p) = trace p
  /\ trace (syncColumnLayout groupExpandable beans p) = trace p.
Proof.
  unfold syncColumnLayout.
  rewrite onColumnsChanged_rebuildWith, !setColumnLayout_rebuildWith.
  repeat split; apply rebuildWith_trace.
Qed.

Lemma applyVis_untouched l m k :
  ~ In k (map fst l) -> applyVis l m !! k = m !! k.
Proof.
  intros H. rewrite applyVis_lookup, (lastFor_notin _ _ H).
  destruct (m !! k); reflexivity.
Qed.

(** X7 — a visibility recomputation changes display flags only: every item
    keeps its key and all its other fields, an item whose key is not the
    identifier of a node of the tree keeps its display flag too, and the
    tree, the filter text, the rendered order and the trace are untouched. *)
Theorem visibility_recomputation_frame (p : PrimaryColsListPanel) :
  (forall k,
      setDisplayed false <$> columnComps (updateVisibilityOfRows p) !! k
      = setDisplayed false <$> columnComps p !! k)
  /\ (forall k,
         ~ In k (map getId (allNodes (columnTree p))) ->
         columnComps (updateVisibilityOfRows p) !! k = columnComps p !! k)
  /\ columnTree (updateVisibilityOfRows p) = columnTree p
  /\ filterText (updateVisibilityOfRows p) = filterText p
  /\ gui (updateVisibilityOfRows p) = gui p
  /\ trace (updateVisibilityOfRows p) = trace p.
Proof.
  split; [apply updateVisibility_shape |].
  split; [| repeat split].
  intros k Hk. rewrite updateVisibility_columnComps.
  apply applyVis_untouched. intros Hin. apply Hk.
  unfold visCalls in Hin. rewrite map_map in Hin. simpl in Hin.
  apply in_map_iff in Hin as [[anc n] [E Hn]]. simpl in E. subst k.
  apply List.filter_In in Hn as [Hn _].
  apply in_map. eapply in_paths_allNodes; eauto.
Qed.

(** X8 — collapsing hides the subtree: after a visibility recomputation the
    item of every node below a group whose item is collapsed is hidden,
    whatever the filter says. *)
Theorem collapsed_group_hides_descendants (p : PrimaryColsListPanel)
        (anc : list OriginalColumnGroupChild)
        (n a : OriginalColumnGroupChild) (ia item : ColumnItem) :
  uniqueIds (columnTree p) ->
  In (anc, n) (paths (columnTree p)) ->
  In a anc ->
  columnComps p !! getId a = Some ia ->
  isExpanded ia = false ->
  columnComps (updateVisibilityOfRows p) !! getId n = Some item ->
  isDisplayed item = false.
Proof.
  intros Hu Hin Ha Hia Hc Hitem.
  rewrite (updateVisibility_lookup p anc n Hu Hin) in Hitem.
  destruct (columnComps p !! getId n) as [c |]; [| discriminate].
  simpl in Hitem. inversion Hitem. simpl.
  assert (E : openOf (columnComps p) anc = false).
  { apply not_true_is_false. intros Hopen. unfold openOf in Hopen.
    rewrite forallb_forall in Hopen. specialize (Hopen a Ha).
    rewrite Hia in Hopen. congruence. }
  now rewrite E.
Qed.

(** X9 — the filter propagates upwards: when a node passes, every one of its
    ancestors passes, so a group stays visible while any descendant
    matches. *)
Theorem filter_passes_upwards (p : PrimaryColsListPanel)
        (anc : list OriginalColumnGroupChild)
        (n a : OriginalColumnGroupChild) :
  uniqueIds (columnTree p) ->
  In (anc, n) (paths (columnTree p)) ->
  In a anc ->
  createFilterResults p !! getId n = Some true ->
  createFilterResults p !! getId a = Some true.
Proof.
  intros Hu. revert n. induction anc as [| a0 anc IH]; intros n Hin Ha Hn;
    [destruct Ha |].
  destruct (paths_parent _ _ _ _ Hin) as [Hin0 Hchild].
  assert (H0 : createFilterResults p !! getId a0 = Some true).
  { rewrite createFilterResults_lookup
      by (auto; eapply in_paths_allNodes; eauto).
    rewrite createFilterResults_lookup in Hn
      by (auto; eapply in_paths_allNodes; eauto).
    f_equal. apply (passes_child _ _ a0 n Hchild). congruence. }
  destruct Ha as [<- | Ha]; [exact H0 |].
  apply (IH a0); auto.
Qed.

Lemma insertAll_is_Some {V} (l : list (string * V)) m k :
  is_Some (insertAll l m !! k) <-> In k (map fst l) \/ is_Some (m !! k).
Proof.
  revert m. induction l as [| [k' v] r IH]; intros m; simpl.
  - tauto.
  - rewrite IH. destruct (decide (k' = k)) as [-> | Hne].
    + rewrite lookup_insert_eq. split; [tauto | eauto].
    + rewrite lookup_insert_ne by exact Hne. tauto.
Qed.

(** X10 — the filter pass writes a result for every node of the tree,
    suppressed nodes and padding groups included, and for nothing else: the
    visibility pass never reads a missing result for a node of the tree. *)
Theorem filter_results_cover_tree (p : PrimaryColsListPanel) (k : string) :
  is_Some (createFilterResults p !! k)
  <-> In k (map getId (allNodes (columnTree p))).
Proof.
  unfold createFilterResults. rewrite recursivelyCheckFilter_spec. simpl.
  rewrite insertAll_is_Some, lookup_empty.
  rewrite <- !list_elem_of_In.
  rewrite (filterEntries_forest_keys (columnComps p) (filterText p)
                                     (columnTree p)).
  split; [intros [H | [x Hx]]; [exact H | discriminate] | auto].
Qed.

(** X11 — an item without display name always passes an active filter. *)
Theorem unnamed_item_passes (p : PrimaryColsListPanel) (text : string)
        (n : OriginalColumnGroupChild) (item : ColumnItem) :
  filterText p = Some text ->
  Js.truthy text = true ->
  uniqueIds (columnTree p) ->
  In n (allNodes (columnTree p)) ->
  columnComps p !! getId n = Some item ->
  getDisplayName item = None ->
  createFilterResults p !! getId n = Some true.
Proof.
  intros Hft Htr Hu Hn Hitem Hname.
  rewrite (createFilterResults_lookup p n Hu Hn). f_equal.
  destruct n as [c | g ch]; cbn [passes]; unfold filterPassesOf.
  - now rewrite Hft, Hitem, Htr, Hname.
  - destruct (existsb _ ch); [reflexivity |].
    now rewrite Hft, Hitem, Htr, Hname.
Qed.

Lemma lowerAscii_idempotent c : Js.lowerAscii (Js.lowerAscii c) = Js.lowerAscii c.
Proof.
  destruct c as [b0 b1 b2 b3 b4 b5 b6 b7].
  destruct b0, b1, b2, b3, b4, b5, b6, b7; vm_compute; reflexivity.
Qed.

Lemma toLowerCase_idempotent s :
  Js.toLowerCase (Js.toLowerCase s) = Js.toLowerCase s.
Proof.
  induction s as [| c r IH]; [reflexivity |].
  simpl. now rewrite lowerAscii_idempotent, IH.
Qed.

Lemma toLowerCase_truthy s : Js.truthy (Js.toLowerCase s) = Js.truthy s.
Proof. destruct s; reflexivity. Qed.

(** X12 — the case of the filter text does not matter: filtering by a text
    and filtering by its lower-case form give the same panel. *)
Theorem setFilterText_ignores_case (text : string) (p : PrimaryColsListPanel) :
  setFilterText (Some text) p = setFilterText (Some (Js.toLowerCase text)) p.
Proof.
  unfold setFilterText. simpl.
  now rewrite toLowerCase_truthy, toLowerCase_idempotent.
Qed.

Lemma open_after_rebuild
      (groupExpandable :
         OriginalColumnGroup -> list OriginalColumnGroupChild -> bool)
      edflt tree :
  uniqueIds tree ->
  forall anc n,
    In (anc, n) (paths tree) ->
    forallb (fun a => negb (suppressed a)) anc = true ->
    openOf (insertAll (entriesOf groupExpandable edflt (paths tree)) ∅) anc
    = edflt || (deptOf anc =? 0)%nat.
Proof.
  intros Hu. induction anc as [| a anc IH]; intros n Hin Hs.
  - simpl. now rewrite orb_true_r.
  - destruct (paths_parent _ _ _ _ Hin) as [Hin0 Hchild].
    simpl in Hs. apply andb_prop in Hs as [Hsa Hs].
    cbn [openOf forallb]. fold (openOf (insertAll (entriesOf groupExpandable edflt (paths tree)) ∅) anc).
    rewrite (IH a Hin0 Hs).
    rewrite (entries_lookup groupExpandable edflt tree anc a Hu Hin0).
    destruct a as [c | g ch]; [destruct Hchild |].
    unfold eligible. cbn [fst snd suppressed isPadding]. 
    cbn [suppressed] in Hsa. rewrite Hsa, Hs.
    unfold deptOf. cbn [List.filter isPadding].
    destruct (padding g); simpl.
    + reflexivity.
    + destruct edflt; reflexivity.
Qed.

(** X13 — what a rebuild shows when no filter is set: with groups expanded
    by default every item is displayed; with [contractColumnSelection] only
    the items without indentation are. *)
Theorem rebuild_initial_display
        (groupExpandable :
           OriginalColumnGroup -> list OriginalColumnGroupChild -> bool)
        (beans : Beans) (p : PrimaryColsListPanel)
        (k : string) (item : ColumnItem) :
  uniqueIds (getPrimaryColumnTree beans) ->
  exists_ (filterText p) = false ->
  columnComps (onColumnsChanged groupExpandable beans p) !! k = Some item ->
  isDisplayed item = expandGroupsByDefault p || (itemDept item =? 0)%nat.
Proof.
  intros Hu Hf Hitem. rewrite onColumnsChanged_rebuildWith in Hitem.
  destruct (rebuildWith_inv groupExpandable _ _ _ _ _ Hitem)
    as [anc [n [Hin [He [-> _]]]]].
  unfold rebuildWith in Hitem.
  rewrite recursivelyAddComps_spec in Hitem.
  set (p2 := setColumnTree (getPrimaryColumnTree beans)
                           (destroyColumnComps p)) in *.
  set (p3 := addAll (entriesOf groupExpandable (expandGroupsByDefault p2)
                               (paths (getPrimaryColumnTree beans))) p2) in *.
  assert (Ht : columnTree p3 = getPrimaryColumnTree beans)
    by (unfold p3; now rewrite addAll_columnTree).
  assert (Hft : filterText p3 = filterText p)
    by (unfold p3; now rewrite addAll_filterText).
  assert (Hc : columnComps p3
               = insertAll (entriesOf groupExpandable (expandGroupsByDefault p)
                                      (paths (getPrimaryColumnTree beans))) ∅)
    by (unfold p3; now rewrite addAll_columnComps).
  rewrite (updateVisibility_lookup p3 anc n) in Hitem
    by (rewrite Ht; assumption).
  unfold activeFilterResults in Hitem. rewrite Hft, Hf, Hc in Hitem.
  rewrite (entries_lookup groupExpandable _ _ anc n Hu Hin), He in Hitem.
  simpl in Hitem. inversion Hitem as [Hi]. simpl. clear Hitem Hi.
  rewrite andb_true_r.
  rewrite (open_after_rebuild groupExpandable _ _ Hu anc n Hin).
  - destruct n; reflexivity.
  - unfold eligible in He. simpl in He.
    now apply andb_prop in He as [_ He].
Qed.

Lemma groupItems_In comps nodes c :
  In c (groupItems comps nodes)
  <-> exists n, In n nodes /\ isGroup n = true /\ comps !! getId n = Some c.
Proof.
  unfold groupItems. rewrite in_flat_map. split.
  - intros [n [Hn Hc]]. exists n. split; [exact Hn |].
    destruct (isGroup n); [| destruct Hc].
    destruct (comps !! getId n) as [c' |]; [| destruct Hc].
    destruct Hc as [-> | []]. auto.
  - intros [n [Hn [Hg Hc]]]. exists n. split; [exact Hn |].
    rewrite Hg, Hc. now left.
Qed.

Lemma filter_none_length {A} (f : A -> bool) l :
  (forall x, In x l -> f x = false) -> length (List.filter f l) = 0%nat.
Proof.
  induction l as [| x r IH]; intros H; [reflexivity |].
  simpl. rewrite (H x) by now left. apply IH. intros y Hy. apply H. now right.
Qed.

Lemma filter_some_length {A} (f : A -> bool) l x :
  In x l -> f x = true -> (0 < length (List.filter f l))%nat.
Proof.
  induction l as [| y r IH]; intros Hin Hx; [destruct Hin |].
  simpl. destruct Hin as [-> | Hin].
  - rewrite Hx. simpl. lia.
  - destruct (f y); simpl; [lia | auto].
Qed.

(** * The breadcrumbs *)

Lemma append_assoc (a b c : string) :
  String.append (String.append a b) c = String.append a (String.append b c).
Proof.
  induction a as [| x a IH]; [reflexivity |].
  change (String x (String.append (String.append a b) c)
          = String x (String.append a (String.append b c))).
  now f_equal.
Qed.

Lemma concat_snoc (l : list string) (k : string) :
  l <> [] ->
  String.concat "." (l ++ [k])
  = String.append (String.concat "." l) (String.append "." k).
Proof.
  induction l as [| x r IH]; intros Hne; [contradiction |].
  destruct r as [| y r'].
  - simpl. reflexivity.
  - change (String.concat "." ((x :: y :: r') ++ [k]))
      with (String.append x (String.append "." (String.concat "." ((y :: r') ++ [k])))).
    rewrite IH by discriminate.
    change (String.concat "." (x :: y :: r'))
      with (String.append x (String.append "." (String.concat "." (y :: r')))).
    now rewrite !append_assoc.
Qed.

Lemma href_step (l : list (string * string)) (k : string) :
  String.append
    (match l with
     | [] => ""
     | _ :: _ => ApiDocumentation.headerId (map fst l)
     end)
    (String.append
       (if (0 <? String.length
                   (match l with
                    | [] => ""
                    | _ :: _ => ApiDocumentation.headerId (map fst l)
                    end))%nat
        then "." else "reference-") k)
  = ApiDocumentation.headerId (map fst l ++ [k]).
Proof.
  destruct l as [| e l']; [reflexivity |].
  assert (Hpos : (0 <? String.length
                         (ApiDocumentation.headerId (map fst (e :: l'))))%nat
                 = true) by reflexivity.
  rewrite Hpos. unfold ApiDocumentation.headerId. simpl map.
  rewrite (concat_snoc (fst e :: map fst l') k) by discriminate.
  now rewrite append_assoc.
Qed.

(** The state of the loop after the entries [l]. *)
Lemma crumb_loop n (l : list (string * string)) :
  exists links,
    fold_left (ApiDocumentation.crumbStep n) l ([], "", 0%nat)
    = (links,
       match l with
       | [] => ""
       | _ :: _ => ApiDocumentation.headerId (map fst l)
       end,
       length l)
    /\ length links = length l
    /\ forall i key text,
        l !! i = Some (key, text) ->
        links !! i
        = Some (if (i <? n - 1)%nat
                then ApiDocumentation.CrumbLink key
                       (String.append "#"
                          (ApiDocumentation.headerId
                             (take (S i) (map fst l)))) text
                else ApiDocumentation.CrumbText key).
Proof.
  induction l as [| [k t] l IH] using rev_ind.
  - exists []. repeat split. intros i key text H. discriminate.
  - destruct IH as [links [Hf [Hlen Hl]]].
    rewrite fold_left_app, Hf.
    cbn [fold_left ApiDocumentation.crumbStep].
    rewrite href_step.
    eexists. split; [| split].
    + f_equal; [f_equal |].
      * destruct l; rewrite map_app; reflexivity.
      * rewrite length_app. simpl. lia.
    + rewrite !length_app. simpl. lia.
    + intros i key text Hi.
      destruct (Nat.lt_ge_cases i (length l)) as [Hlt | Hge].
      * rewrite lookup_app_l in Hi by exact Hlt.
        rewrite lookup_app_l by lia.
        rewrite (Hl i key text Hi). rewrite map_app.
        rewrite take_app_le by (rewrite length_map; lia). reflexivity.
      * assert (Ei : i = length l).
        { apply lookup_lt_Some in Hi. rewrite length_app in Hi. simpl in Hi.
          lia. }
        subst i. rewrite lookup_app_r in Hi by lia.
        rewrite Nat.sub_diag in Hi. simpl in Hi. inversion Hi; subst.
        rewrite lookup_app_r by lia. rewrite Hlen, Nat.sub_diag. simpl.
        rewrite take_ge by (rewrite length_map, length_app; simpl; lia).
        now rewrite map_app.
Qed.

(** X16 — the breadcrumbs: nothing is rendered for fewer than two crumbs;
    otherwise there is one fragment per crumb, the last is plain text, and
    every earlier one links to the header anchor [Section] generates for the
    chain of keys up to that crumb. *)
Theorem breadcrumbs_link_to_headers (breadcrumbs : list (string * string)) :
  (ApiDocumentation.Breadcrumbs breadcrumbs = None
   <-> (length breadcrumbs <= 1)%nat)
  /\ forall links,
      ApiDocumentation.Breadcrumbs breadcrumbs = Some links ->
      length links = length breadcrumbs
      /\ forall i key text,
          breadcrumbs !! i = Some (key, text) ->
          links !! i
          = Some (if (i <? length breadcrumbs - 1)%nat
                  then ApiDocumentation.CrumbLink key
                         (String.append "#"
                            (ApiDocumentation.headerId
                               (take (S i) (map fst breadcrumbs)))) text
                  else ApiDocumentation.CrumbText key).
Proof.
  unfold ApiDocumentation.Breadcrumbs. cbv zeta.
  destruct (Nat.leb_spec (length breadcrumbs) 1) as [Hle | Hgt].
  - split; [tauto | discriminate].
  - split; [split; [discriminate | lia] |].
    intros links Hlinks.
    destruct (crumb_loop (length breadcrumbs) breadcrumbs)
      as [links' [Hf [Hlen Hl]]].
    rewrite Hf in Hlinks. simpl in Hlinks. inversion Hlinks; subst links'.
    split; [exact Hlen | exact Hl].
Qed.

(** Three nested sections. *)
Example breadcrumbs_of_three :
  ApiDocumentation.Breadcrumbs
    [("columns", "Columns"); ("filter", "Filter"); ("params", "Params")]
  = Some [ApiDocumentation.CrumbLink "columns" "#reference-columns" "Columns";
          ApiDocumentation.CrumbLink "filter" "#reference-columns.filter"
                                     "Filter";
          ApiDocumentation.CrumbText "params"].
Proof. reflexivity. Qed.

(** * Instances of the further properties *)

Lemma rebuild_indentation_witness :
  uniqueIds (getPrimaryColumnTree (Examples.beansOf Examples.topPaddedTree false))
  /\ In ([Examples.topPadding], ColumnNode (Examples.column "y" "Price" false))
        (paths (getPrimaryColumnTree
                  (Examples.beansOf Examples.topPaddedTree false)))
  /\ columnComps (onColumnsChanged Examples.alwaysExpandable
                    (Examples.beansOf Examples.topPaddedTree false)
                    Examples.newPanel)
     !! getId (ColumnNode (Examples.column "y" "Price" false))
     = Some {| itemIsGroup := false; itemDept := 0;
               getDisplayName := Some "Price"; isExpandable := false;
               isExpanded := false; isDisplayed := true |}
  /\ itemDept {| itemIsGroup := false; itemDept := 0;
                 getDisplayName := Some "Price"; isExpandable := false;
                 isExpanded := false; isDisplayed := true |}
     = length (List.filter (fun a => negb (isPadding a))
                           [Examples.topPadding]).
Proof.
  assert (H1 : uniqueIds (getPrimaryColumnTree
                            (Examples.beansOf Examples.topPaddedTree false))).
  { unfold uniqueIds. apply (bool_decide_unpack _). vm_compute. exact I. }
  assert (H2 : In ([Examples.topPadding],
                   ColumnNode (Examples.column "y" "Price" false))
                  (paths (getPrimaryColumnTree
                            (Examples.beansOf Examples.topPaddedTree false))))
    by (vm_compute; right; right; right; left; reflexivity).
  assert (H3 : columnComps (onColumnsChanged Examples.alwaysExpandable
                              (Examples.beansOf Examples.topPaddedTree false)
                              Examples.newPanel)
               !! getId (ColumnNode (Examples.column "y" "Price" false))
               = Some {| itemIsGroup := false; itemDept := 0;
                         getDisplayName := Some "Price"; isExpandable := false;
                         isExpanded := false; isDisplayed := true |})
    by (vm_compute; reflexivity).
  repeat (split; [assumption |]).
  exact (rebuild_indentation Examples.alwaysExpandable
           (Examples.beansOf Examples.topPaddedTree false) Examples.newPanel
           [Examples.topPadding]
           (ColumnNode (Examples.column "y" "Price" false)) _ H1 H2 H3).
Defined.

Lemma setColumnLayout_registry_witness :
  uniqueIds (createColumnTree (Examples.beansOf Examples.mixedTree false)
                              [GroupDef [LeafDef]])
  /\ columnTree (setColumnLayout Examples.alwaysExpandable
                   (Examples.beansOf Examples.mixedTree false)
                   [GroupDef [LeafDef]]
                   (Examples.panelOf Examples.threeLevels false))
     = createColumnTree (Examples.beansOf Examples.mixedTree false)
                        [GroupDef [LeafDef]]
  /\ (forall anc n,
         In (anc, n)
            (paths (createColumnTree (Examples.beansOf Examples.mixedTree false)
                                     [GroupDef [LeafDef]])) ->
         is_Some (columnComps
                    (setColumnLayout Examples.alwaysExpandable
                       (Examples.beansOf Examples.mixedTree false)
                       [GroupDef [LeafDef]]
                       (Examples.panelOf Examples.threeLevels false))
                  !! getId n)
         <-> suppressed n = false /\ isPadding n = false
             /\ forall a, In a anc -> suppressed a = false)
  /\ (forall k,
         is_Some (columnComps
                    (setColumnLayout Examples.alwaysExpandable
                       (Examples.beansOf Examples.mixedTree false)
                       [GroupDef [LeafDef]]
                       (Examples.panelOf Examples.threeLevels false))
                  !! k) ->
         exists n,
           In n (allNodes
                   (createColumnTree (Examples.beansOf Examples.mixedTree false)
                                     [GroupDef [LeafDef]]))
           /\ getId n = k).
Proof.
  assert (Hu : uniqueIds
                 (createColumnTree (Examples.beansOf Examples.mixedTree false)
                                   [GroupDef [LeafDef]])).
  { unfold uniqueIds. apply (bool_decide_unpack _). vm_compute. exact I. }
  split; [exact Hu |].
  exact (setColumnLayout_registry Examples.alwaysExpandable
           (Examples.beansOf Examples.mixedTree false) [GroupDef [LeafDef]]
           (Examples.panelOf Examples.threeLevels false) Hu).
Defined.

Lemma init_subscriptions_witness :
  listeners Examples.newPanel = []
  /\ globalEvent Examples.alwaysExpandable
                 (Examples.beansOf Examples.mixedTree false)
                 EVENT_COLUMN_EVERYTHING_CHANGED
                 (init Examples.alwaysExpandable
                       (Examples.beansOf Examples.threeLevels false)
                       Examples.defaultParams false Examples.newPanel)
     = onColumnsChanged Examples.alwaysExpandable
                        (Examples.beansOf Examples.mixedTree false)
                        (init Examples.alwaysExpandable
                              (Examples.beansOf Examples.threeLevels false)
                              Examples.defaultParams false Examples.newPanel)
  /\ globalEvent Examples.alwaysExpandable
                 (Examples.beansOf Examples.mixedTree false)
                 EVENT_COLUMN_MOVED
                 (init Examples.alwaysExpandable
                       (Examples.beansOf Examples.threeLevels false)
                       Examples.defaultParams false Examples.newPanel)
     = if syncLayoutWithGrid Examples.defaultParams
       then syncColumnLayout Examples.alwaysExpandable
              (Examples.beansOf Examples.mixedTree false)
              (init Examples.alwaysExpandable
                    (Examples.beansOf Examples.threeLevels false)
                    Examples.defaultParams false Examples.newPanel)
       else init Examples.alwaysExpandable
                 (Examples.beansOf Examples.threeLevels false)
                 Examples.defaultParams false Examples.newPanel.
Proof.
  split; [reflexivity |].
  exact (init_subscriptions Examples.alwaysExpandable
           (Examples.beansOf Examples.threeLevels false)
           (Examples.beansOf Examples.mixedTree false)
           Examples.defaultParams false Examples.newPanel eq_refl).
Defined.

Lemma collapsed_group_hides_descendants_witness :
  uniqueIds (columnTree Examples.subCollapsed)
  /\ In ([Examples.sub; Examples.root], Examples.leaf)
        (paths (columnTree Examples.subCollapsed))
  /\ In Examples.sub [Examples.sub; Examples.root]
  /\ columnComps Examples.subCollapsed !! getId Examples.sub
     = Some {| itemIsGroup := true; itemDept := 1;
               getDisplayName := Some "Sub"; isExpandable := true;
               isExpanded := false; isDisplayed := true |}
  /\ isExpanded {| itemIsGroup := true; itemDept := 1;
                   getDisplayName := Some "Sub"; isExpandable := true;
                   isExpanded := false; isDisplayed := true |} = false
  /\ columnComps (updateVisibilityOfRows Examples.subCollapsed)
     !! getId Examples.leaf
     = Some {| itemIsGroup := false; itemDept := 2;
               getDisplayName := Some "Leaf"; isExpandable := false;
               isExpanded := false; isDisplayed := false |}
  /\ isDisplayed {| itemIsGroup := false; itemDept := 2;
                    getDisplayName := Some "Leaf"; isExpandable := false;
                    isExpanded := false; isDisplayed := false |} = false.
Proof.
  assert (H1 : uniqueIds (columnTree Examples.subCollapsed)).
  { unfold uniqueIds. apply (bool_decide_unpack _). vm_compute. exact I. }
  assert (H2 : In ([Examples.sub; Examples.root], Examples.leaf)
                  (paths (columnTree Examples.subCollapsed)))
    by (vm_compute; right; right; left; reflexivity).
  assert (H3 : In Examples.sub [Examples.sub; Examples.root])
    by (left; reflexivity).
  assert (H4 : columnComps Examples.subCollapsed !! getId Examples.sub
               = Some {| itemIsGroup := true; itemDept := 1;
                         getDisplayName := Some "Sub"; isExpandable := true;
                         isExpanded := false; isDisplayed := true |})
    by (vm_compute; reflexivity).
  assert (H5 : isExpanded {| itemIsGroup := true; itemDept := 1;
                             getDisplayName := Some "Sub"; isExpandable := true;
                             isExpanded := false; isDisplayed := true |}
               = false) by reflexivity.
  assert (H6 : columnComps (updateVisibilityOfRows Examples.subCollapsed)
               !! getId Examples.leaf
               = Some {| itemIsGroup := false; itemDept := 2;
                         getDisplayName := Some "Leaf"; isExpandable := false;
                         isExpanded := false; isDisplayed := false |})
    by (vm_compute; reflexivity).
  repeat (split; [assumption |]).
  exact (collapsed_group_hides_descendants Examples.subCollapsed
           [Examples.sub; Examples.root] Examples.leaf Examples.sub
           _ _ H1 H2 H3 H4 H5 H6).
Defined.

Lemma filter_passes_upwards_witness :
  uniqueIds (columnTree Examples.revenueFiltered)
  /\ In ([GroupNode (Examples.group "A" "A" None false)
                    [ColumnNode (Examples.column "revenue" "Revenue" false);
                     ColumnNode (Examples.column "cost" "Cost" false)]],
         ColumnNode (Examples.column "revenue" "Revenue" false))
        (paths (columnTree Examples.revenueFiltered))
  /\ createFilterResults Examples.revenueFiltered !! "revenue" = Some true
  /\ createFilterResults Examples.revenueFiltered !! "A" = Some true.
Proof.
  assert (H1 : uniqueIds (columnTree Examples.revenueFiltered)).
  { unfold uniqueIds. apply (bool_decide_unpack _). vm_compute. exact I. }
  assert (H2 : In ([GroupNode (Examples.group "A" "A" None false)
                      [ColumnNode (Examples.column "revenue" "Revenue" false);
                       ColumnNode (Examples.column "cost" "Cost" false)]],
                   ColumnNode (Examples.column "revenue" "Revenue" false))
                  (paths (columnTree Examples.revenueFiltered)))
    by (vm_compute; right; left; reflexivity).
  assert (H3 : createFilterResults Examples.revenueFiltered !! "revenue"
               = Some true) by (vm_compute; reflexivity).
  repeat (split; [assumption |]).
  exact (filter_passes_upwards Examples.revenueFiltered _
           (ColumnNode (Examples.column "revenue" "Revenue" false))
           (GroupNode (Examples.group "A" "A" None false)
              [ColumnNode (Examples.column "revenue" "Revenue" false);
               ColumnNode (Examples.column "cost" "Cost" false)])
           H1 H2 (or_introl eq_refl) H3).
Defined.

Lemma unnamed_item_passes_witness :
  filterText Examples.unnamedFiltered = Some "rev"
  /\ Js.truthy "rev" = true
  /\ uniqueIds (columnTree Examples.unnamedFiltered)
  /\ In Examples.unnamedColumn (allNodes (columnTree Examples.unnamedFiltered))
  /\ columnComps Examples.unnamedFiltered !! getId Examples.unnamedColumn
     = Some {| itemIsGroup := false; itemDept := 0; getDisplayName := None;
               isExpandable := false; isExpanded := false;
               isDisplayed := true |}
  /\ createFilterResults Examples.unnamedFiltered
     !! getId Examples.unnamedColumn = Some true.
Proof.
  assert (H1 : filterText Examples.unnamedFiltered = Some "rev")
    by (vm_compute; reflexivity).
  assert (H2 : Js.truthy "rev" = true) by reflexivity.
  assert (H3 : uniqueIds (columnTree Examples.unnamedFiltered)).
  { unfold uniqueIds. apply (bool_decide_unpack _). vm_compute. exact I. }
  assert (H4 : In Examples.unnamedColumn
                  (allNodes (columnTree Examples.unnamedFiltered)))
    by (vm_compute; left; reflexivity).
  assert (H5 : columnComps Examples.unnamedFiltered
               !! getId Examples.unnamedColumn
               = Some {| itemIsGroup := false; itemDept := 0;
                         getDisplayName := None; isExpandable := false;
                         isExpanded := false; isDisplayed := true |})
    by (vm_compute; reflexivity).
  repeat (split; [assumption |]).
  exact (unnamed_item_passes Examples.unnamedFiltered "rev"
           Examples.unnamedColumn _ H1 H2 H3 H4 H5 eq_refl).
Defined.

Lemma rebuild_initial_display_witness :
  uniqueIds (getPrimaryColumnTree (Examples.beansOf Examples.threeLevels false))
  /\ exists_ (filterText Examples.newPanel) = false
  /\ columnComps (onColumnsChanged Examples.alwaysExpandable
                    (Examples.beansOf Examples.threeLevels false)
                    Examples.newPanel) !! "leaf"
     = Some {| itemIsGroup := false; itemDept := 2;
               getDisplayName := Some "Leaf"; isExpandable := false;
               isExpanded := false; isDisplayed := false |}
  /\ isDisplayed {| itemIsGroup := false; itemDept := 2;
                    getDisplayName := Some "Leaf"; isExpandable := false;
                    isExpanded := false; isDisplayed := false |}
     = expandGroupsByDefault Examples.newPanel
       || (itemDept {| itemIsGroup := false; itemDept := 2;
                       getDisplayName := Some "Leaf"; isExpandable := false;
                       isExpanded := false; isDisplayed := false |} =? 0)%nat.
Proof.
  assert (H1 : uniqueIds (getPrimaryColumnTree
                            (Examples.beansOf Examples.threeLevels false))).
  { unfold uniqueIds. apply (bool_decide_unpack _). vm_compute. exact I. }
  assert (H2 : exists_ (filterText Examples.newPanel) = false) by reflexivity.
  assert (H3 : columnComps (onColumnsChanged Examples.alwaysExpandable
                              (Examples.beansOf Examples.threeLevels false)
                              Examples.newPanel) !! "leaf"
               = Some {| itemIsGroup := false; itemDept := 2;
                         getDisplayName := Some "Leaf"; isExpandable := false;
                         isExpanded := false; isDisplayed := false |})
    by (vm_compute; reflexivity).
  repeat (split; [assumption |]).
  exact (rebuild_initial_display Examples.alwaysExpandable
           (Examples.beansOf Examples.threeLevels false) Examples.newPanel
           "leaf" _ H1 H2 H3).
Defined.

Lemma mergeObjects_snoc {V} (objects : list (option (gmap string V))) o :
  ApiDocumentation.mergeObjects (objects ++ [o])
  = ApiDocumentation.assign (ApiDocumentation.mergeObjects objects) o.
Proof. unfold ApiDocumentation.mergeObjects. now rewrite fold_left_app. Qed.

(** X18 — merging the objects read from several sources: a key of the
    merged object has the value of the last object that defines it, and a
    key no object defines is absent; undefined entries are skipped. *)
Theorem mergeObjects_last_wins {V} (objects : list (option (gmap string V)))
        (k : string) (v : V) :
  ApiDocumentation.mergeObjects objects !! k = Some v
  <-> exists i o,
      objects !! i = Some (Some o) /\ o !! k = Some v
      /\ forall j o', (i < j)%nat -> objects !! j = Some (Some o') ->
                      o' !! k = None.
Proof.
  revert v. induction objects as [| x objects IH] using rev_ind; intros v.
  - split.
    + intros H. unfold ApiDocumentation.mergeObjects in H. simpl in H.
      now rewrite lookup_empty in H.
    + intros [i [o [H _]]]. discriminate.
  - rewrite mergeObjects_snoc. split.
    + intros H. destruct x as [ox |]; simpl in H.
      * apply lookup_union_Some_raw in H as [H | [Hn H]].
        -- exists (length objects), ox. split; [| split; [exact H |]].
           ++ rewrite lookup_app_r by lia. now rewrite Nat.sub_diag.
           ++ intros j o' Hj Ho'. apply lookup_lt_Some in Ho'.
              rewrite length_app in Ho'. simpl in Ho'. lia.
        -- apply IH in H as [i [o [Hi [Hk Hlast]]]].
           exists i, o. split; [| split; [exact Hk |]].
           ++ rewrite lookup_app_l by (apply lookup_lt_Some in Hi; exact Hi).
              exact Hi.
           ++ intros j o' Hj Ho'.
              destruct (Nat.lt_ge_cases j (length objects)) as [Hlt | Hge].
              ** rewrite lookup_app_l in Ho' by exact Hlt. eauto.
              ** assert (Ej : j = length objects).
                 { apply lookup_lt_Some in Ho'. rewrite length_app in Ho'.
                   simpl in Ho'. lia. }
                 subst j. rewrite lookup_app_r in Ho' by lia.
                 rewrite Nat.sub_diag in Ho'. simpl in Ho'.
                 inversion Ho'; subst. exact Hn.
      * apply IH in H as [i [o [Hi [Hk Hlast]]]].
        exists i, o. split; [| split; [exact Hk |]].
        -- rewrite lookup_app_l by (apply lookup_lt_Some in Hi; exact Hi).
           exact Hi.
        -- intros j o' Hj Ho'.
           destruct (Nat.lt_ge_cases j (length objects)) as [Hlt | Hge].
           ++ rewrite lookup_app_l in Ho' by exact Hlt. eauto.
           ++ assert (Ej : j = length objects).
              { apply lookup_lt_Some in Ho'. rewrite length_app in Ho'.
                simpl in Ho'. lia. }
              subst j. rewrite lookup_app_r in Ho' by lia.
              rewrite Nat.sub_diag in Ho'. simpl in Ho'. discriminate.
    + intros [i [o [Hi [Hk Hlast]]]].
      destruct (Nat.lt_ge_cases i (length objects)) as [Hlt | Hge].
      * rewrite lookup_app_l in Hi by exact Hlt.
        assert (Hm : ApiDocumentation.mergeObjects objects !! k = Some v).
        { apply IH. exists i, o. split; [exact Hi |]. split; [exact Hk |].
          intros j o' Hj Ho'. apply (Hlast j o' Hj).
          rewrite lookup_app_l by (apply lookup_lt_Some in Ho'; exact Ho').
          exact Ho'. }
        destruct x as [ox |]; simpl; [| exact Hm].
        apply lookup_union_Some_raw. right. split; [| exact Hm].
        apply (Hlast (length objects) ox Hlt).
        rewrite lookup_app_r by lia. now rewrite Nat.sub_diag.
      * assert (Ei : i = length objects).
        { apply lookup_lt_Some in Hi. rewrite length_app in Hi.
          simpl in Hi. lia. }
        subst i. rewrite lookup_app_r in Hi by lia.
        rewrite Nat.sub_diag in Hi. simpl in Hi. inversion Hi; subst.
        simpl. apply lookup_union_Some_raw. now left.
Qed.

(** * Expansion through the items' callback *)

Section ExpansionFacts.

Variable notifiesUnchanged : bool.

Lemma writeExpanded_same it : writeExpanded (isExpanded it) it = it.
Proof. now destruct it. Qed.

Lemma insert_as_alter_expanded (m : gmap string ColumnItem) k b c :
  m !! k = Some c -> <[k := writeExpanded b c]> m = alter (writeExpanded b) k m.
Proof.
  intros H. apply map_eq. intros j.
  destruct (decide (k = j)) as [-> | Hne].
  - now rewrite lookup_insert_eq, lookup_alter_eq, H.
  - now rewrite lookup_insert_ne, lookup_alter_ne.
Qed.

(** Display flags apart, [setExpanded] writes the flag of the item of
    [key]. *)
Lemma setExpanded_shape value key p :
  sameShape (columnComps (setExpanded notifiesUnchanged value key p))
            (alter (writeExpanded value) key (columnComps p)).
Proof.
  unfold setExpanded. destruct (columnComps p !! key) as [it |] eqn:E.
  - destruct (Bool.eqb (isExpanded it) value && negb notifiesUnchanged)
      eqn:Eb.
    + apply andb_true_iff in Eb as [Eb _].
      apply Bool.eqb_prop in Eb. subst value. intros j.
      destruct (decide (key = j)) as [<- | Hne].
      * rewrite lookup_alter_eq, E. simpl.
        now rewrite writeExpanded_same.
      * now rewrite lookup_alter_ne.
    + rewrite <- (insert_as_alter_expanded _ _ _ _ E).
      exact (updateVisibility_shape
               (withComps (insert key (writeExpanded value it)) p)).
  - intros j. destruct (decide (key = j)) as [<- | Hne].
    + now rewrite lookup_alter_eq, E.
    + now rewrite lookup_alter_ne.
Qed.

Lemma setExpanded_columnTree value key p :
  columnTree (setExpanded notifiesUnchanged value key p) = columnTree p.
Proof.
  unfold setExpanded. destruct (columnComps p !! key) as [it |];
    [| reflexivity].
  destruct (Bool.eqb (isExpanded it) value && negb notifiesUnchanged);
    reflexivity.
Qed.

Lemma onGroupExpanded_fresh x :
  columnComps (updateVisibilityOfRows (onGroupExpanded x))
  = columnComps (onGroupExpanded x).
Proof.
  change (columnComps (updateVisibilityOfRows (onGroupExpanded x)))
    with (columnComps (updateVisibilityOfRows (updateVisibilityOfRows x))).
  now rewrite updateVisibility_idempotent.
Qed.

(** A call of [setExpanded] either changes nothing or ends with the
    visibility recomputed and the aggregate event dispatched. *)
Lemma setExpanded_progress start value key p :
  p = start \/ freshlyRecomputed start p ->
  setExpanded notifiesUnchanged value key p = p
  \/ freshlyRecomputed start (setExpanded notifiesUnchanged value key p).
Proof.
  intros Hp. unfold setExpanded.
  destruct (columnComps p !! key) as [it |]; [| now left].
  destruct (Bool.eqb (isExpanded it) value && negb notifiesUnchanged);
    [now left |].
  right. set (x := withComps (insert key (writeExpanded value it)) p).
  split; [apply onGroupExpanded_fresh |].
  assert (Ht : exists events,
             Forall isGroupExpandedEvent events
             /\ trace p = trace start ++ events).
  { destruct Hp as [-> | [_ [events [Hev Htr]]]].
    - exists []. split; [constructor | now rewrite app_nil_r].
    - eexists (events ++ [_]). split; [| exact Htr].
      apply Forall_app. split; [exact Hev |].
      constructor; [exact I | constructor]. }
  destruct Ht as [events [Hev Htr]].
  exists events. split; [exact Hev |].
  rewrite onGroupExpanded_trace.
  change (trace x) with (trace p). rewrite Htr, <- app_assoc. reflexivity.
Qed.

Lemma expandStep_progress start wanted value acc key :
  fst acc = start \/ freshlyRecomputed start (fst acc) ->
  fst (expandStep notifiesUnchanged wanted value acc key) = start
  \/ freshlyRecomputed start (fst (expandStep notifiesUnchanged wanted value acc key)).
Proof.
  intros H. unfold expandStep.
  destruct (columnComps (fst acc) !! key) as [it |]; [| exact H].
  destruct (isExpandable it && wanted key); [| exact H].
  simpl.
  destruct (setExpanded_progress start value key (fst acc) H) as [E | F].
  - rewrite E. exact H.
  - now right.
Qed.

Lemma expandFold_progress start wanted value l : forall acc,
  fst acc = start \/ freshlyRecomputed start (fst acc) ->
  fst (fold_left (expandStep notifiesUnchanged wanted value) l acc) = start
  \/ freshlyRecomputed
       start (fst (fold_left (expandStep notifiesUnchanged wanted value) l acc)).
Proof.
  induction l as [| k l IH]; intros acc H; [exact H |].
  simpl. apply IH. now apply expandStep_progress.
Qed.

Lemma expandFold_columnTree wanted value l : forall acc,
  columnTree (fst (fold_left (expandStep notifiesUnchanged wanted value) l acc))
  = columnTree (fst acc).
Proof.
  induction l as [| k l IH]; intros acc; [reflexivity |].
  simpl. rewrite IH. unfold expandStep.
  destruct (columnComps (fst acc) !! k) as [it |]; [| reflexivity].
  destruct (isExpandable it && wanted k); [| reflexivity].
  apply setExpanded_columnTree.
Qed.


Lemma shape_lookup_Some (o o' : option ColumnItem) it' :
  setDisplayed false <$> o = setDisplayed false <$> o' ->
  o = Some it' ->
  exists it, o' = Some it /\ setDisplayed false it' = setDisplayed false it.
Proof.
  intros H Hm. rewrite Hm in H. destruct o' as [it |]; [| discriminate].
  exists it. split; [reflexivity |]. now apply fmap_Some_eq.
Qed.

Lemma expandedIn_expandable wanted value l j it :
  isExpandable (expandedIn wanted value l j it) = isExpandable it.
Proof. unfold expandedIn. now destruct (_ && _ && _). Qed.

(** Display flags apart, the visits of the keys [l] write the flag of every
    expandable, wanted item among them and touch nothing else. *)
Lemma expandFold_shape wanted value l : forall p e j,
  setDisplayed false
  <$> columnComps (fst (fold_left (expandStep notifiesUnchanged wanted value) l (p, e))) !! j
  = setDisplayed false
    <$> (expandedIn wanted value l j <$> columnComps p !! j).
Proof.
  induction l as [| k l IH] using rev_ind; intros p e j.
  - simpl. destruct (columnComps p !! j) as [it |]; [| reflexivity].
    simpl. unfold expandedIn.
    rewrite bool_decide_eq_false_2 by apply not_elem_of_nil.
    now rewrite andb_false_r.
  - rewrite fold_left_app. simpl.
    set (r := fold_left (expandStep notifiesUnchanged wanted value) l (p, e)) in *.
    assert (IHr : forall i,
               setDisplayed false <$> columnComps (fst r) !! i
               = setDisplayed false
                 <$> (expandedIn wanted value l i <$> columnComps p !! i))
      by (intros i; apply IH).
    assert (Hk : forall it',
               columnComps (fst r) !! k = Some it' ->
               exists it, columnComps p !! k = Some it
                          /\ isExpandable it' = isExpandable it).
    { intros it' Hit'.
      destruct (shape_lookup_Some _ _ _ (IHr k) Hit') as [x [Hx Hs]].
      destruct (columnComps p !! k) as [it |]; [| discriminate].
      exists it. split; [reflexivity |]. simpl in Hx. inversion Hx; subst x.
      assert (E : isExpandable (setDisplayed false it')
                  = isExpandable (setDisplayed false
                                    (expandedIn wanted value l k it)))
        by now rewrite Hs.
      simpl in E. now rewrite E, expandedIn_expandable. }
    assert (Hother : forall it,
               columnComps p !! j = Some it -> j <> k ->
               expandedIn wanted value (l ++ [k]) j it
               = expandedIn wanted value l j it).
    { intros it _ Hne. unfold expandedIn.
      assert (Eb : bool_decide (j ∈ l ++ [k]) = bool_decide (j ∈ l)).
      { apply bool_decide_ext.
        rewrite elem_of_app, list_elem_of_singleton. tauto. }
      now rewrite Eb. }
    unfold expandStep.
    destruct (columnComps (fst r) !! k) as [it' |] eqn:Ek.
    + destruct (Hk it' eq_refl) as [it [Hit He]].
      rewrite He.
      destruct (isExpandable it && wanted k) eqn:Ec; simpl.
      * rewrite (setExpanded_shape value k (fst r) j).
        destruct (decide (k = j)) as [<- | Hne].
        -- rewrite lookup_alter_eq.
           pose proof (IHr k) as Hs.
           rewrite Ek, Hit in Hs. rewrite Ek, Hit.
           apply fmap_Some_eq in Hs. simpl. f_equal.
           assert (E : writeExpanded value (setDisplayed false it')
                       = writeExpanded value
                           (setDisplayed false
                              (expandedIn wanted value l k it)))
             by now rewrite Hs.
           unfold expandedIn at 1. rewrite Ec.
           rewrite bool_decide_eq_true_2
             by (rewrite elem_of_app, list_elem_of_singleton; tauto).
           simpl. unfold expandedIn in E.
           destruct (isExpandable it && wanted k && bool_decide (k ∈ l));
             destruct it, it'; simpl in *; inversion E; reflexivity.
        -- rewrite lookup_alter_ne by exact Hne. rewrite (IHr j).
           destruct (columnComps p !! j) as [itj |] eqn:Ej; [| reflexivity].
           simpl. now rewrite (Hother itj eq_refl (not_eq_sym Hne)).
      * rewrite (IHr j).
        destruct (columnComps p !! j) as [itj |] eqn:Ej; [| reflexivity].
        simpl. f_equal. f_equal.
        destruct (decide (j = k)) as [-> | Hne];
          [| symmetry; now apply Hother].
        rewrite Hit in Ej. inversion Ej; subst itj.
        unfold expandedIn. now rewrite Ec.
    + rewrite (IHr j).
      destruct (columnComps p !! j) as [itj |] eqn:Ej; [| reflexivity].
      simpl. f_equal. f_equal.
      destruct (decide (j = k)) as [-> | Hne];
        [| symmetry; now apply Hother].
      pose proof (IHr k) as Hs.
      rewrite Ek, Ej in Hs. discriminate.
Qed.


(** The two iterations of the source are iterations of [expandStep]. *)
Lemma expandAll_fold value (l : list (string * ColumnItem)) : forall q e,
  fold_left
    (fun acc kv =>
       match columnComps acc !! fst kv with
       | Some renderedItem =>
           if isExpandable renderedItem
           then setExpanded notifiesUnchanged value (fst kv) acc else acc
       | None => acc
       end) l q
  = fst (fold_left (expandStep notifiesUnchanged (fun _ => true) value) (map fst l) (q, e)).
Proof.
  induction l as [| kv l IH]; intros q e; [reflexivity |].
  simpl. unfold expandStep at 2. simpl.
  destruct (columnComps q !! fst kv) as [it |]; [| apply IH].
  rewrite andb_true_r. destruct (isExpandable it); apply IH.
Qed.

Lemma doSetExpandedAll_fold value p :
  doSetExpandedAll notifiesUnchanged value p
  = fst (fold_left (expandStep notifiesUnchanged (fun _ => true) value)
                   (map fst (map_to_list (columnComps p))) (p, [])).
Proof. apply expandAll_fold. Qed.


Lemma keys_of_registry (m : gmap string ColumnItem) j :
  j ∈ map fst (map_to_list m) <-> is_Some (m !! j).
Proof.
  rewrite list_elem_of_In, in_map_iff. split.
  - intros [[k it] [E H]]. simpl in E; subst.
    apply list_elem_of_In, elem_of_map_to_list in H. eauto.
  - intros [it H]. exists (j, it). split; [reflexivity |].
    now apply list_elem_of_In, elem_of_map_to_list.
Qed.

(** After a whole iteration. *)
Lemma expandAll_lookup wanted value p e j :
  setDisplayed false
  <$> columnComps
        (fst (fold_left (expandStep notifiesUnchanged wanted value)
                        (map fst (map_to_list (columnComps p))) (p, e))) !! j
  = setDisplayed false
    <$> ((fun it => if isExpandable it && wanted j
                    then writeExpanded value it else it)
         <$> columnComps p !! j).
Proof.
  rewrite expandFold_shape.
  destruct (columnComps p !! j) as [it |] eqn:E; [| reflexivity].
  simpl. f_equal. f_equal. unfold expandedIn.
  rewrite bool_decide_eq_true_2 by (apply keys_of_registry; eauto).
  now rewrite andb_true_r.
Qed.



(** An item known up to its display flag. *)
Lemma shape_item (o o' : option ColumnItem) (f : ColumnItem -> ColumnItem)
      item :
  setDisplayed false <$> o' = setDisplayed false <$> (f <$> o) ->
  o = Some item ->
  exists item',
    o' = Some item' /\ setDisplayed false item' = setDisplayed false (f item).
Proof.
  intros H ->. destruct o' as [item' |]; [| discriminate].
  exists item'. split; [reflexivity |]. now apply fmap_Some_eq.
Qed.

Lemma shape_step (f : ColumnItem -> ColumnItem) (o1 o2 : option ColumnItem) :
  (forall x, setDisplayed false (f x) = f (setDisplayed false x)) ->
  setDisplayed false <$> o1 = setDisplayed false <$> o2 ->
  setDisplayed false <$> (f <$> o1) = setDisplayed false <$> (f <$> o2).
Proof.
  intros Hf H. destruct o1 as [x |], o2 as [y |]; try discriminate;
    [| reflexivity].
  apply fmap_Some_eq in H. simpl. now rewrite !Hf, H.
Qed.

(** Writing the expansion flag under a test on [isExpandable] commutes with
    hiding the item. *)
Lemma writeIf_setDisplayed (c : ColumnItem -> bool) value :
  (forall x, c (setDisplayed false x) = c x) ->
  forall x,
    setDisplayed false (if c x then writeExpanded value x else x)
    = (if c (setDisplayed false x)
       then writeExpanded value (setDisplayed false x)
       else setDisplayed false x).
Proof. intros H x. rewrite H. now destruct (c x). Qed.


(** *** [doSetExpandedAll] *)

Lemma doSetExpandedAll_lookup value p j :
  setDisplayed false
  <$> columnComps (doSetExpandedAll notifiesUnchanged value p) !! j
  = setDisplayed false
    <$> ((fun it => if isExpandable it then writeExpanded value it else it)
         <$> columnComps p !! j).
Proof.
  rewrite doSetExpandedAll_fold, expandAll_lookup.
  destruct (columnComps p !! j) as [it |]; [| reflexivity].
  simpl. now rewrite andb_true_r.
Qed.

Lemma doSetExpandedAll_columnTree value p :
  columnTree (doSetExpandedAll notifiesUnchanged value p) = columnTree p.
Proof. rewrite doSetExpandedAll_fold. apply expandFold_columnTree. Qed.

Lemma doSetExpandedAll_progress start value q :
  q = start \/ freshlyRecomputed start q ->
  doSetExpandedAll notifiesUnchanged value q = start
  \/ freshlyRecomputed start (doSetExpandedAll notifiesUnchanged value q).
Proof.
  intros H. rewrite doSetExpandedAll_fold.
  now apply expandFold_progress.
Qed.

(** Every group item of the tree carries [value] after
    [doSetExpandedAll value] when the group items are expandable. *)
Lemma groupItems_after_expand_all value p c :
  (forall n item,
      In n (allNodes (columnTree p)) -> isGroup n = true ->
      columnComps p !! getId n = Some item -> isExpandable item = true) ->
  In c (groupItems (columnComps (doSetExpandedAll notifiesUnchanged value p))
                   (allNodes (columnTree p))) ->
  isExpanded c = value.
Proof.
  intros Hall Hc. apply groupItems_In in Hc as [n [Hn [Hg Hc]]].
  pose proof (doSetExpandedAll_lookup value p (getId n)) as Hs.
  rewrite Hc in Hs.
  destruct (columnComps p !! getId n) as [item |] eqn:Hitem; [| discriminate].
  apply fmap_Some_eq in Hs. rewrite (Hall n item Hn Hg Hitem) in Hs.
  apply (f_equal isExpanded) in Hs. exact Hs.
Qed.

(** *** [setGroupsExpanded] with ids *)






(** An unknown id on the three-level tree: the registry is unchanged and the
    id is reported, whatever the items do when nothing changes. *)
Example setGroupsExpanded_unknownId :
  columnComps (setGroupsExpanded notifiesUnchanged true (Some ["unknownId"])
                 (Examples.panelOf Examples.threeLevels false))
  = columnComps (Examples.panelOf Examples.threeLevels false)
  /\ trace (setGroupsExpanded notifiesUnchanged true (Some ["unknownId"])
              (Examples.panelOf Examples.threeLevels false))
     = [ConsoleWarn ["unknownId"]].
Proof. destruct notifiesUnchanged; split; vm_compute; reflexivity. Qed.

(** Collapsing everything and expanding one group of the three-level tree
    leaves that group expanded and the other collapsed; the last event
    reports "mixed". *)
Example mixed_after_partial_expand :
  let q := setGroupsExpanded notifiesUnchanged true (Some ["root"])
             (setGroupsExpanded notifiesUnchanged false None
                (Examples.panelOf Examples.threeLevels false)) in
  isExpanded <$> columnComps q !! "root" = Some true
  /\ isExpanded <$> columnComps q !! "sub" = Some false
  /\ last (trace q) = Some (DispatchGroupExpanded INDETERMINATE).
Proof. destruct notifiesUnchanged; repeat split; vm_compute; reflexivity. Qed.

(** X14 — expanding or collapsing everything and the aggregate state: when
    every group item is expandable, a [doSetExpandedAll true] that changes
    the panel dispatches "groups expanded" events of which the last reports
    all-expanded, and a [doSetExpandedAll false] that changes it ends with
    all-collapsed as soon as one group of the tree has an item; the call
    changes the panel whenever an expandable item has the other flag. *)
Theorem expand_all_event (p : PrimaryColsListPanel) :
  (forall n item,
      In n (allNodes (columnTree p)) -> isGroup n = true ->
      columnComps p !! getId n = Some item -> isExpandable item = true) ->
  (doSetExpandedAll notifiesUnchanged true p = p
   \/ exists events,
       Forall isGroupExpandedEvent events
       /\ trace (doSetExpandedAll notifiesUnchanged true p)
          = trace p ++ events ++ [DispatchGroupExpanded CHECKED])
  /\ ((exists n item,
          In n (allNodes (columnTree p)) /\ isGroup n = true
          /\ columnComps p !! getId n = Some item) ->
      doSetExpandedAll notifiesUnchanged false p = p
      \/ exists events,
          Forall isGroupExpandedEvent events
          /\ trace (doSetExpandedAll notifiesUnchanged false p)
             = trace p ++ events ++ [DispatchGroupExpanded UNCHECKED])
  /\ (forall value k item,
         columnComps p !! k = Some item -> isExpandable item = true ->
         isExpanded item = negb value ->
         doSetExpandedAll notifiesUnchanged value p <> p).
Proof.
  intros Hall. split; [| split].
  - destruct (doSetExpandedAll_progress p true p (or_introl eq_refl))
      as [E | [_ [events [Hev Htr]]]]; [now left | right].
    exists events. split; [exact Hev |]. rewrite Htr.
    rewrite doSetExpandedAll_columnTree.
    unfold collapsedGroups. rewrite filter_none_length.
    + unfold expandedState. now rewrite andb_false_r.
    + intros c Hc.
      now rewrite (groupItems_after_expand_all true p c Hall Hc).
  - intros [n [item [Hn [Hg Hitem]]]].
    destruct (doSetExpandedAll_progress p false p (or_introl eq_refl))
      as [E | [_ [events [Hev Htr]]]]; [now left | right].
    exists events. split; [exact Hev |]. rewrite Htr.
    rewrite doSetExpandedAll_columnTree.
    unfold expandedGroups. rewrite filter_none_length
      by (intros c Hc; apply (groupItems_after_expand_all false p c Hall Hc)).
    assert (Hpos : (0 < collapsedGroups
                           (columnComps
                              (doSetExpandedAll notifiesUnchanged false p))
                           (columnTree p))%nat).
    { destruct (shape_item _ _ _ item
                  (doSetExpandedAll_lookup false p (getId n)) Hitem)
        as [c [Hc Hs]].
      unfold collapsedGroups. apply (filter_some_length _ _ c).
      - apply groupItems_In. exists n. auto.
      - rewrite (Hall n item Hn Hg Hitem) in Hs.
        apply (f_equal isExpanded) in Hs. simpl in Hs. now rewrite Hs. }
    unfold expandedState. simpl.
    apply Nat.ltb_lt in Hpos. now rewrite Hpos.
  - intros value k item Hk He Hx E.
    destruct (shape_item _ _ _ item
                (doSetExpandedAll_lookup value p k) Hk) as [c [Hc Hs]].
    rewrite E, Hk in Hc. inversion Hc; subst c.
    rewrite He in Hs. apply (f_equal isExpanded) in Hs. simpl in Hs.
    rewrite Hx in Hs. now destruct value.
Qed.


(** X17 — the last bulk expansion wins: after [doSetExpandedAll first] and
    [doSetExpandedAll second] every item is, display flag apart, what
    [doSetExpandedAll second] alone makes of it, and an item that is not
    expandable what it was; unless the two calls changed nothing at all, the
    display flags are those a visibility recomputation gives and the last
    thing dispatched is the aggregate state of the final registry. *)
Theorem doSetExpandedAll_last_wins (first second : bool)
        (p : PrimaryColsListPanel) :
  sameShape
    (columnComps (doSetExpandedAll notifiesUnchanged second
                    (doSetExpandedAll notifiesUnchanged first p)))
    (columnComps (doSetExpandedAll notifiesUnchanged second p))
  /\ (forall k item,
         columnComps p !! k = Some item -> isExpandable item = false ->
         exists item',
           columnComps (doSetExpandedAll notifiesUnchanged second
                          (doSetExpandedAll notifiesUnchanged first p)) !! k
           = Some item'
           /\ setDisplayed false item' = setDisplayed false item)
  /\ (doSetExpandedAll notifiesUnchanged second
        (doSetExpandedAll notifiesUnchanged first p) = p
      \/ freshlyRecomputed
           p (doSetExpandedAll notifiesUnchanged second
                (doSetExpandedAll notifiesUnchanged first p))).
Proof.
  assert (Hs : forall k,
             setDisplayed false
             <$> columnComps (doSetExpandedAll notifiesUnchanged second
                                (doSetExpandedAll notifiesUnchanged first p))
                 !! k
             = setDisplayed false
               <$> ((fun it => if isExpandable it
                               then writeExpanded second it else it)
                    <$> columnComps p !! k)).
  { intros k. rewrite doSetExpandedAll_lookup.
    rewrite (shape_step
               (fun it => if isExpandable it
                          then writeExpanded second it else it) _ _
               (writeIf_setDisplayed isExpandable second (fun x => eq_refl))
               (doSetExpandedAll_lookup first p k)).
    destruct (columnComps p !! k) as [item |]; [| reflexivity].
    simpl. f_equal.
    destruct (isExpandable item) eqn:He; simpl; rewrite ?He; reflexivity. }
  split; [| split].
  - intros k. now rewrite Hs, doSetExpandedAll_lookup.
  - intros k item Hk He.
    destruct (shape_item _ _ _ item (Hs k) Hk) as [item' [H1 H2]].
    exists item'. split; [exact H1 |]. now rewrite He in H2.
  - apply doSetExpandedAll_progress.
    apply doSetExpandedAll_progress. now left.
Qed.

End ExpansionFacts.

Lemma expand_all_event_witness :
  (forall n item,
      In n (allNodes (columnTree (Examples.panelOf Examples.threeLevels false))) ->
      isGroup n = true ->
      columnComps (Examples.panelOf Examples.threeLevels false) !! getId n
      = Some item ->
      isExpandable item = true)
  /\ (doSetExpandedAll Examples.changesOnly true
        (Examples.panelOf Examples.threeLevels false)
      = Examples.panelOf Examples.threeLevels false
      \/ exists events,
          Forall isGroupExpandedEvent events
          /\ trace (doSetExpandedAll Examples.changesOnly true
                      (Examples.panelOf Examples.threeLevels false))
             = trace (Examples.panelOf Examples.threeLevels false)
               ++ events ++ [DispatchGroupExpanded CHECKED])
  /\ ((exists n item,
          In n (allNodes (columnTree
                            (Examples.panelOf Examples.threeLevels false)))
          /\ isGroup n = true
          /\ columnComps (Examples.panelOf Examples.threeLevels false)
             !! getId n = Some item) ->
      doSetExpandedAll Examples.changesOnly false
        (Examples.panelOf Examples.threeLevels false)
      = Examples.panelOf Examples.threeLevels false
      \/ exists events,
          Forall isGroupExpandedEvent events
          /\ trace (doSetExpandedAll Examples.changesOnly false
                      (Examples.panelOf Examples.threeLevels false))
             = trace (Examples.panelOf Examples.threeLevels false)
               ++ events ++ [DispatchGroupExpanded UNCHECKED])
  /\ (forall value k item,
         columnComps (Examples.panelOf Examples.threeLevels false) !! k
         = Some item ->
         isExpandable item = true ->
         isExpanded item = negb value ->
         doSetExpandedAll Examples.changesOnly value
           (Examples.panelOf Examples.threeLevels false)
         <> Examples.panelOf Examples.threeLevels false).
Proof.
  assert (H : forall n item,
             In n (allNodes (columnTree
                               (Examples.panelOf Examples.threeLevels false))) ->
             isGroup n = true ->
             columnComps (Examples.panelOf Examples.threeLevels false)
             !! getId n = Some item ->
             isExpandable item = true).
  { intros n item Hn Hg Hitem. vm_compute in Hn.
    destruct Hn as [<- | [<- | [<- | []]]];
      try discriminate Hg;
      vm_compute in Hitem; inversion Hitem; reflexivity. }
  split; [exact H |].
  exact (expand_all_event Examples.changesOnly
           (Examples.panelOf Examples.threeLevels false) H).
Defined.

(** Collapsing all groups of the three-level tree: one event for each of
    the two groups, the last reports all-collapsed. *)
Example collapse_all_three_levels :
  exists state,
    trace (doSetExpandedAll Examples.changesOnly false
             (Examples.panelOf Examples.threeLevels false))
    = [DispatchGroupExpanded state; DispatchGroupExpanded UNCHECKED].
Proof. eexists. vm_compute. reflexivity. Qed.
